(** * A single-tape Turing machine simulator: shallow embedding and properties

    The development follows [turing_simulator.py]: the three classes [Tape],
    [TransitionFunction] and [TuringMachine], the bundled machine
    [create_on1n_machine] for the language 0^n 1^n, and the test table at the
    bottom of the script.

    Python values are modelled as follows.
    - A symbol and a state identifier are Python [str]; here [string].  The
      characters of an input string are taken one byte each (ASCII text).
    - A dict is a [gmap]; the set [reject_states] is a [gset]; the lists
      handed to the constructor are [list string].
    - Attributes that start as [None] ([current_state], [tape]) are [option].
    - Methods that mutate [self] are state-passing functions in the monad
      [M], whose outcome is a returned value or a raised exception; the state
      reached at the point of a raise is kept, as in Python. *)

From Stdlib Require Import ZArith String Ascii List Lia.
From stdpp Require Import base option list list_numbers sorting gmap strings.

Open Scope Z_scope.

(** ** Exceptions, outcomes and the state monad *)

(** The exceptions the script can raise.  Python has one [ValueError] class
    for both messages; they are told apart by the line that raises them. *)
Inductive exception : Type :=
  | InvalidInputSymbol  (* ValueError, load_input, line 94 *)
  | NotInitialized      (* ValueError, run, line 117 *)
  | AttributeError      (* attribute access on None: self.tape.read(), self.tape.head *)
  | EOFError.           (* input() on an exhausted standard input, line 125 *)

(** [Diverge] is not a Python outcome: it is what a fuelled loop of the model
    gives when its fuel runs out before the loop guard fails. *)
Inductive outcome (A : Type) : Type :=
  | Return (a : A)
  | Raise (e : exception)
  | Diverge.
Arguments Return {A} a.
Arguments Raise {A} e.
Arguments Diverge {A}.

Definition M (S A : Type) : Type := S -> outcome A * S.

Definition ret {S A : Type} (a : A) : M S A := fun s => (Return a, s).

Definition raise {S A : Type} (e : exception) : M S A := fun s => (Raise e, s).

Definition bind {S A B : Type} (c : M S A) (k : A -> M S B) : M S B :=
  fun s =>
    match c s with
    | (Return a, s') => k a s'
    | (Raise e, s') => (Raise e, s')
    | (Diverge, s') => (Diverge, s')
    end.

Definition gets {S A : Type} (f : S -> A) : M S A := fun s => (Return (f s), s).

Definition modify {S : Type} (f : S -> S) : M S unit := fun s => (Return tt, f s).

Declare Scope monad_scope.
Delimit Scope monad_scope with monad.
Notation "x <- c1 ;; c2" := (bind c1 (fun x => c2))
  (at level 62, c1 at next level, right associativity) : monad_scope.

(** ** Python strings *)

(** Iterating over a [str] yields its characters as one-character strings. *)
Fixpoint chars (s : string) : list string :=
  match s with
  | EmptyString => []
  | String a s' => String a EmptyString :: chars s'
  end.

(** [enumerate(l)], counting from [i]. *)
Fixpoint enumerate_from {A : Type} (i : Z) (l : list A) : list (Z * A) :=
  match l with
  | [] => []
  | x :: l' => (i, x) :: enumerate_from (i + 1) l'
  end.

Definition enumerate {A : Type} (l : list A) : list (Z * A) := enumerate_from 0 l.

(** ** class Tape *)

Module Tape.

Record t : Type := mk {
  content : gmap Z string;
  blank : string;
  head : Z
}.

(** [__init__]: the loop [self.content[i] = sym] over [enumerate]. *)
Definition init (initial_content : string) (blank : string) : t :=
  {| content :=
       if bool_decide (initial_content <> EmptyString) then
         foldl (fun c '(i, sym) => <[i := sym]> c) ∅
               (enumerate (chars initial_content))
       else ∅;
     blank := blank;
     head := 0 |}.

Definition read (self : t) : string :=
  default (blank self) (content self !! head self).

(** [write] keeps the source's nesting: the inner test repeats the negation
    of the outer one, so its [del] branch is never taken, and a blank
    written over a stored cell is stored as an ordinary symbol. *)
Definition write (sym : string) (self : t) : t :=
  if bool_decide (sym = blank self) && bool_decide (content self !! head self = None)
  then
    if bool_decide (is_Some (content self !! head self))
    then {| content := delete (head self) (content self);
            blank := blank self; head := head self |}
    else self
  else {| content := <[head self := sym]> (content self);
          blank := blank self; head := head self |}.

Definition move (direction : string) (self : t) : t :=
  if bool_decide (direction = "R"%string)
  then {| content := content self; blank := blank self; head := head self + 1 |}
  else if bool_decide (direction = "L"%string)
  then {| content := content self; blank := blank self; head := head self - 1 |}
  else self.

(** [min(positions)] and [max(positions)] of a non-empty list. *)
Definition list_min (p : Z) (ps : list Z) : Z := foldl Z.min p ps.
Definition list_max (p : Z) (ps : list Z) : Z := foldl Z.max p ps.

(** [__str__]: the window of cells around the head, the head cell in
    brackets, an ellipsis on each side where the window cuts the tape. *)
Definition str (self : t) : string :=
  let empty_tape := ("..." +:+ blank self +:+ "[" +:+ blank self +:+ "]...")%string in
  if bool_decide (content self = ∅) then empty_tape
  else
    match merge_sort Z.le (elements (dom (content self))) with
    | [] => empty_tape
    | p :: ps =>
        let min_pos := list_min p ps in
        let max_pos := list_max p ps in
        let start := Z.max (Z.max (min_pos - 5) (head self - 25)) (-50) in
        let end_ := Z.min (Z.min (max_pos + 5) (head self + 25)) 50 in
        let s :=
          map (fun pos =>
                 let sym := default (blank self) (content self !! pos) in
                 if bool_decide (pos = head self)
                 then ("[" +:+ sym +:+ "]")%string
                 else sym)
              (seqZ start (end_ + 1 - start)) in
        let left_ellipsis :=
          if bool_decide (start > min_pos - 5) then "..."%string else ""%string in
        let right_ellipsis :=
          if bool_decide (end_ < max_pos + 5) then "..."%string else ""%string in
        (left_ellipsis +:+ String.concat "" s +:+ right_ellipsis)%string
    end.

End Tape.

(** ** class TransitionFunction *)

Module TransitionFunction.

Record t : Type := mk {
  transitions : gmap (string * string) (string * string * string)
}.

Definition init : t := {| transitions := ∅ |}.

Definition add (current_state read_sym next_state write_sym direction : string)
    (self : t) : t :=
  let key := (current_state, read_sym) in
  {| transitions := <[key := (next_state, write_sym, direction)]> (transitions self) |}.

(** [get] is called with [self.current_state], which is [None] before the
    first [load_input]; no key has [None] as its state, so the lookup
    misses. *)
Definition get (state : option string) (sym : string) (self : t)
    : option (string * string * string) :=
  match state with
  | Some q => transitions self !! (q, sym)
  | None => None
  end.

End TransitionFunction.

(** ** class TuringMachine *)

(** The strings [step] and [run] return. *)
Inductive status : Type :=
  | Accept     (* 'accept' *)
  | Reject     (* 'reject' *)
  | Continue   (* 'continue' *)
  | Loop.      (* 'loop' *)

Global Instance status_eq_dec : EqDecision status.
Proof. solve_decision. Defined.

(** The dict [get_config] builds. *)
Record config : Type := mk_config {
  estado : option string;
  cinta : string;
  cabezal : Z
}.

Module TuringMachine.

Record t : Type := mk {
  states : list string;
  input_alphabet : list string;
  tape_alphabet : list string;
  initial_state : string;
  accept_states : list string;
  reject_states : gset string;
  blank : string;
  transition_function : TransitionFunction.t;
  current_state : option string;
  tape : option Tape.t
}.

Definition init (states input_alphabet tape_alphabet : list string)
    (initial_state : string) (accept_states : list string) (blank : string) : t :=
  {| states := states;
     input_alphabet := input_alphabet;
     tape_alphabet := tape_alphabet;
     initial_state := initial_state;
     accept_states := accept_states;
     reject_states := {["q_reject"%string]};
     blank := blank;
     transition_function := TransitionFunction.init;
     current_state := None;
     tape := None |}.

Definition set_transition_function (f : TransitionFunction.t) (self : t) : t :=
  {| states := states self; input_alphabet := input_alphabet self;
     tape_alphabet := tape_alphabet self; initial_state := initial_state self;
     accept_states := accept_states self; reject_states := reject_states self;
     blank := blank self; transition_function := f;
     current_state := current_state self; tape := tape self |}.

Definition set_current_state (q : option string) (self : t) : t :=
  {| states := states self; input_alphabet := input_alphabet self;
     tape_alphabet := tape_alphabet self; initial_state := initial_state self;
     accept_states := accept_states self; reject_states := reject_states self;
     blank := blank self; transition_function := transition_function self;
     current_state := q; tape := tape self |}.

Definition set_tape (tp : option Tape.t) (self : t) : t :=
  {| states := states self; input_alphabet := input_alphabet self;
     tape_alphabet := tape_alphabet self; initial_state := initial_state self;
     accept_states := accept_states self; reject_states := reject_states self;
     blank := blank self; transition_function := transition_function self;
     current_state := current_state self; tape := tp |}.

Definition add_transition (current read next_s write dir : string) (self : t) : t :=
  set_transition_function
    (TransitionFunction.add current read next_s write dir (transition_function self))
    self.

(** [self.current_state in self.accept_states] and the same test on the
    reject set; [None] is in neither. *)
Definition in_accept_states (self : t) : bool :=
  match current_state self with
  | Some q => bool_decide (q ∈ accept_states self)
  | None => false
  end.

Definition in_reject_states (self : t) : bool :=
  match current_state self with
  | Some q => bool_decide (q ∈ reject_states self)
  | None => false
  end.

(** The test of [load_input]:
    [any(c not in self.input_alphabet + [self.blank] for c in input_str)]. *)
Definition invalid_input (input_str : string) (self : t) : bool :=
  bool_decide
    (Exists (fun c => c ∉ input_alphabet self ++ [blank self]) (chars input_str)).

Definition load_input (input_str : string) : M t unit :=
  fun self =>
    if invalid_input input_str self then (Raise InvalidInputSymbol, self)
    else
      let self1 := set_tape (Some (Tape.init input_str (blank self))) self in
      let self2 := set_current_state (Some (initial_state self1)) self1 in
      (Return tt, self2).

Definition step : M t status :=
  fun self =>
    if in_accept_states self then (Return Accept, self)
    else if in_reject_states self then (Return Reject, self)
    else
      match tape self with
      | None => (Raise AttributeError, self)
      | Some tp =>
          let sym := Tape.read tp in
          match TransitionFunction.get (current_state self) sym
                  (transition_function self) with
          | None => (Return Reject, self)
          | Some (next_state, write_sym, direction) =>
              let tp1 := Tape.write write_sym tp in
              let tp2 := Tape.move direction tp1 in
              (Return Continue,
               set_current_state (Some next_state) (set_tape (Some tp2) self))
          end
      end.

Definition get_config : M t config :=
  fun self =>
    match tape self with
    | None => (Raise AttributeError, self)
    | Some tp =>
        (Return {| estado := current_state self;
                   cinta := Tape.str tp;
                   cabezal := Tape.head tp |}, self)
    end.

End TuringMachine.

(** ** The console and the run loop *)

(** What [run] writes on standard output in step-by-step mode: the line
    [Paso {steps + 1}: {config}] of [print], kept as its two arguments, and
    the prompt of [input]. *)
Inductive output : Type :=
  | Paso (n : Z) (c : config)
  | Prompt (msg : string).

(** Standard output so far and the lines still to be read on standard
    input. *)
Record console : Type := mk_console {
  stdout : list output;
  stdin : list string
}.

(** The state [run] acts on: the machine object, the console, and
    [step_calls], a ghost log holding the status returned by each call of
    [self.step()] that [run] makes, in call order.  Nothing reads the log. *)
Record world : Type := mk_world {
  self : TuringMachine.t;
  io : console;
  step_calls : list status
}.

(** A method of the machine, run on the machine of the world. *)
Definition on_self {A : Type} (c : M TuringMachine.t A) : M world A :=
  fun w =>
    let '(r, m) := c (self w) in
    (r, {| self := m; io := io w; step_calls := step_calls w |}).

Definition print (line : output) : M world unit :=
  modify (fun w =>
    {| self := self w;
       io := {| stdout := stdout (io w) ++ [line]; stdin := stdin (io w) |};
       step_calls := step_calls w |}).

(** [input(prompt)]: writes the prompt, then reads one line; [EOFError] when
    no line is left. *)
Definition input (prompt : string) : M world string :=
  fun w =>
    let out := stdout (io w) ++ [Prompt prompt] in
    match stdin (io w) with
    | [] =>
        (Raise EOFError,
         {| self := self w; io := {| stdout := out; stdin := [] |};
            step_calls := step_calls w |})
    | line :: rest =>
        (Return line,
         {| self := self w; io := {| stdout := out; stdin := rest |};
            step_calls := step_calls w |})
    end.

(** [result = self.step()], logged. *)
Definition call_step : M world status :=
  (result <- on_self TuringMachine.step ;;
   _ <- modify (fun w =>
          {| self := self w; io := io w;
             step_calls := step_calls w ++ [result] |}) ;;
   ret result)%monad.

(** The [while steps < max_steps] loop of [run].  [fuel] bounds the number of
    iterations of the model; the guard is the source's. *)
Fixpoint run_loop (step_by_step : bool) (fuel : nat) (max_steps steps : Z)
    (history : list config) : M world (status * list config) :=
  if bool_decide (steps < max_steps) then
    match fuel with
    | O => fun w => (Diverge, w)
    | S fuel' =>
        (config <- on_self TuringMachine.get_config ;;
         let history := history ++ [config] in
         _ <- (if step_by_step
               then (_ <- print (Paso (steps + 1) config) ;;
                     _ <- input "Presiona Enter para continuar...." ;;
                     ret tt)
               else ret tt) ;;
         result <- call_step ;;
         if bool_decide (result <> Continue) then
           (final_config <- on_self TuringMachine.get_config ;;
            let history := history ++ [final_config] in
            ret (result, history))
         else run_loop step_by_step fuel' max_steps (steps + 1) history)%monad
    end
  else ret (Loop, history).

Definition run_fuel (fuel : nat) (max_steps : Z) (step_by_step : bool)
    : M world (status * list config) :=
  (tp <- gets (fun w => TuringMachine.tape (self w)) ;;
   match tp with
   | None => raise NotInitialized
   | Some _ => run_loop step_by_step fuel max_steps 0 []
   end)%monad.

(** [run]: [max_steps] iterations of fuel are always enough for the loop
    (see [run_loop_fuel_enough]). *)
Definition run (max_steps : Z) (step_by_step : bool) : M world (status * list config) :=
  run_fuel (Z.to_nat max_steps) max_steps step_by_step.

(** ** create_on1n_machine *)

Definition create_on1n_machine : TuringMachine.t :=
  let states := ["q0"; "q1"; "q2"; "q3"; "q_accept"; "q_reject"]%string in
  let input_alphabet := ["0"; "1"]%string in
  let tape_alphabet := ["0"; "1"; "X"; "Y"; "_"]%string in
  let initial := "q0"%string in
  let accept := ["q_accept"]%string in
  let tm := TuringMachine.init states input_alphabet tape_alphabet initial accept "_" in
  let tm := TuringMachine.add_transition "q0" "_" "q3" "_" "R" tm in
  let tm := TuringMachine.add_transition "q0" "0" "q1" "X" "R" tm in
  let tm := TuringMachine.add_transition "q0" "1" "q_reject" "1" "N" tm in
  let tm := TuringMachine.add_transition "q0" "X" "q0" "X" "R" tm in
  let tm := TuringMachine.add_transition "q0" "Y" "q3" "Y" "R" tm in
  let tm := TuringMachine.add_transition "q1" "0" "q1" "0" "R" tm in
  let tm := TuringMachine.add_transition "q1" "1" "q2" "Y" "L" tm in
  let tm := TuringMachine.add_transition "q1" "X" "q1" "X" "R" tm in
  let tm := TuringMachine.add_transition "q1" "Y" "q1" "Y" "R" tm in
  let tm := TuringMachine.add_transition "q1" "_" "q_reject" "_" "N" tm in
  let tm := TuringMachine.add_transition "q2" "_" "q0" "_" "R" tm in
  let tm := TuringMachine.add_transition "q2" "0" "q2" "0" "L" tm in
  let tm := TuringMachine.add_transition "q2" "1" "q2" "1" "L" tm in
  let tm := TuringMachine.add_transition "q2" "X" "q2" "X" "L" tm in
  let tm := TuringMachine.add_transition "q2" "Y" "q2" "Y" "L" tm in
  let tm := TuringMachine.add_transition "q3" "X" "q3" "X" "R" tm in
  let tm := TuringMachine.add_transition "q3" "Y" "q3" "Y" "R" tm in
  let tm := TuringMachine.add_transition "q3" "0" "q_reject" "0" "N" tm in
  let tm := TuringMachine.add_transition "q3" "1" "q_reject" "1" "N" tm in
  let tm := TuringMachine.add_transition "q3" "_" "q_accept" "_" "N" tm in
  tm.

(** A fresh world around a machine: nothing printed, the given lines waiting
    on standard input, no call of [step] logged. *)
Definition world_of (m : TuringMachine.t) (lines : list string) : world :=
  {| self := m; io := {| stdout := []; stdin := lines |}; step_calls := [] |}.

(** One row of the test table of the script: [tm.load_input(inp)], then
    [tm.run(step_by_step=False, max_steps=1000)]. *)
Definition test_row (inp : string) : M world (status * list config) :=
  (_ <- on_self (TuringMachine.load_input inp) ;;
   run 1000 false)%monad.

(** The loop of the script over its test table, on one machine object:
    the status of each row, in order. *)
Fixpoint run_tests (inputs : list string) : M world (list status) :=
  match inputs with
  | [] => ret []
  | inp :: rest =>
      (r <- test_row inp ;;
       rs <- run_tests rest ;;
       ret (fst r :: rs))%monad
  end.

(** The status part of what [run] gives. *)
Definition verdict_of (o : outcome (status * list config)) : outcome status :=
  match o with
  | Return (r, _) => Return r
  | Raise e => Raise e
  | Diverge => Diverge
  end.

(** The verdict of the bundled machine on one input, from a fresh machine. *)
Definition on1n_verdict (inp : string) : outcome status :=
  verdict_of (fst (test_row inp (world_of create_on1n_machine []))).

(** ** Predicates used in the statements *)

(** The accept set and the reject set of a machine share no state. *)
Definition accept_reject_disjoint (m : TuringMachine.t) : Prop :=
  forall q, q ∈ TuringMachine.accept_states m -> q ∉ TuringMachine.reject_states m.

(** Two machine states have the same accept set and the same reject set. *)
Definition same_sets (m m' : TuringMachine.t) : Prop :=
  TuringMachine.accept_states m' = TuringMachine.accept_states m /\
  TuringMachine.reject_states m' = TuringMachine.reject_states m.

(** The tape that holds exactly the characters of [s] at positions
    [0 .. len(s) - 1] and nothing elsewhere. *)
Definition seeded_with (s : string) (tp : Tape.t) : Prop :=
  forall i : Z,
    Tape.content tp !! i =
      if bool_decide (0 <= i) then chars s !! Z.to_nat i else None.

(** The configuration [get_config] reports for a machine whose tape is
    [tp]. *)
Definition config_of (m : TuringMachine.t) (tp : Tape.t) : config :=
  {| estado := TuringMachine.current_state m;
     cinta := Tape.str tp;
     cabezal := Tape.head tp |}.

(** The console after the trace block of one iteration that found a line to
    read: in step-by-step mode the [Paso] line and the prompt are written and
    one line is consumed; otherwise nothing happens. *)
Definition console_after_trace (step_by_step : bool) (steps : Z) (cfg : config)
    (c : console) : console :=
  if step_by_step
  then {| stdout := stdout c ++ [Paso (steps + 1) cfg;
                                 Prompt "Presiona Enter para continuar...."];
          stdin := tail (stdin c) |}
  else c.

(** The machine states at the start of the first [n] iterations of the loop,
    when none of them halts: each is the result of [step] on the one
    before. *)
Fixpoint visited (n : nat) (m : TuringMachine.t) : list TuringMachine.t :=
  match n with
  | O => []
  | S n' => m :: visited n' (snd (TuringMachine.step m))
  end.


(** ** Machines used as examples *)

(** The bundled machine after [load_input("0011")]. *)
Definition on1n_loaded_0011 : TuringMachine.t :=
  snd (TuringMachine.load_input "0011" create_on1n_machine).

(** The bundled machine after the test row for ["01"]: it has halted in its
    accepting state. *)
Definition on1n_accepted_01 : TuringMachine.t :=
  self (snd (test_row "01" (world_of create_on1n_machine []))).

(** A machine built by the constructor alone, with no transition added,
    after [load_input("1")]. *)
Definition no_rule_machine : TuringMachine.t :=
  snd (TuringMachine.load_input "1"
         (TuringMachine.init ["q0"; "q_accept"; "q_reject"] ["0"; "1"]
            ["0"; "1"; "_"] "q0" ["q_accept"] "_")%string).

(** A machine whose caller lists ["q_reject"] among the accept states. *)
Definition overlapping_machine : TuringMachine.t :=
  TuringMachine.init ["q0"; "q_reject"] ["0"; "1"] ["0"; "1"; "_"] "q0"
    ["q_reject"] "_"%string.

(** ** Further predicates and examples *)

(** Two machine states are the same machine program: they agree on every
    attribute but [current_state] and [tape]. *)
Definition same_program (m m' : TuringMachine.t) : Prop :=
  TuringMachine.states m' = TuringMachine.states m /\
  TuringMachine.input_alphabet m' = TuringMachine.input_alphabet m /\
  TuringMachine.tape_alphabet m' = TuringMachine.tape_alphabet m /\
  TuringMachine.initial_state m' = TuringMachine.initial_state m /\
  TuringMachine.accept_states m' = TuringMachine.accept_states m /\
  TuringMachine.reject_states m' = TuringMachine.reject_states m /\
  TuringMachine.blank m' = TuringMachine.blank m /\
  TuringMachine.transition_function m' = TuringMachine.transition_function m.

(** The head displacement of [move]: one cell right for ['R'], one cell left
    for ['L'], none for any other string. *)
Definition displacement (direction : string) : Z :=
  if bool_decide (direction = "R"%string) then 1
  else if bool_decide (direction = "L"%string) then -1
  else 0.

(** A tape with its head put at position [i]. *)
Definition head_at (i : Z) (tp : Tape.t) : Tape.t :=
  {| Tape.content := Tape.content tp; Tape.blank := Tape.blank tp; Tape.head := i |}.

(** What step-by-step mode writes for the configurations [h], met at the
    start of consecutive iterations, the first of them numbered
    [steps + 1]. *)
Fixpoint trace_lines (steps : Z) (h : list config) : list output :=
  match h with
  | [] => []
  | cfg :: h' =>
      Paso (steps + 1) cfg :: Prompt "Presiona Enter para continuar...."
        :: trace_lines (steps + 1) h'
  end.

(** A history put in front of the history a run returns. *)
Definition prepend_history (h0 : list config)
    (res : outcome (status * list config) * world)
    : outcome (status * list config) * world :=
  match res with
  | (Return (r, h), w) => (Return (r, h0 ++ h), w)
  | (Raise e, w) => (Raise e, w)
  | (Diverge, w) => (Diverge, w)
  end.

(** The bundled machine after the test row for ["001"]: it has halted in
    its rejecting state. *)
Definition on1n_rejected_001 : TuringMachine.t :=
  self (snd (test_row "001" (world_of create_on1n_machine []))).

(** The machine state after [k] calls of [step]. *)
Fixpoint after_steps (k : nat) (m : TuringMachine.t) : TuringMachine.t :=
  match k with
  | O => m
  | S k' => after_steps k' (snd (TuringMachine.step m))
  end.

(** The world of the test table after [load_input("01")] on the bundled
    machine. *)
Definition on1n_world_01 : world :=
  snd (on_self (TuringMachine.load_input "01") (world_of create_on1n_machine [])).

(** ** The bundled machine on the words 0^a 1^b *)

(** [n] copies of the character [a] in front of [rest]. *)
Fixpoint repeat_char (n : nat) (a : ascii) (rest : string) : string :=
  match n with
  | O => rest
  | S n' => String a (repeat_char n' a rest)
  end.

(** The word 0^a 1^b followed by [rest]. *)
Definition zeros_ones (a b : nat) (rest : string) : string :=
  repeat_char a "0" (repeat_char b "1" rest).

(** The number of calls of [step] that return ['continue'] when the bundled
    machine runs on 0^n 1^n. *)
Definition on1n_steps (n : nat) : nat :=
  match n with
  | O => 2
  | S _ => 3 * n * n + 3 * n + 1
  end.

(** The same number on 0^a 1^b with [a <> b]. *)
Definition on1n_reject_steps (a b : nat) : nat :=
  if (b <? a)%nat
  then 2 * a * b + b * b + 2 * b + a + 1
  else 3 * a * a + 3 * a + 1.

(** The bundled machine in state [q], with its head at [p] over the cells
    [c]. *)
Definition on1n_at (q : string) (p : Z) (c : gmap Z string) : TuringMachine.t :=
  TuringMachine.set_current_state (Some q)
    (TuringMachine.set_tape
       (Some {| Tape.content := c; Tape.blank := "_"; Tape.head := p |})
       create_on1n_machine).

(** [step] continues from [m] and from the [k - 1] machine states that
    follow, and the state after these [k] calls is [m']. *)
Definition reaches (k : nat) (m m' : TuringMachine.t) : Prop :=
  Forall (fun mk => fst (TuringMachine.step mk) = Return Continue) (visited k m) /\
  after_steps k m = m'.

(** The tape of the bundled machine after [j] rounds of marking on a word
    that starts with 0^a 1^b: [j] marked zeros, the other zeros, [j] marked
    ones, the other ones; nothing stored left of the word, and a cell that
    reads as blank right after it. *)
Definition on1n_round (a b j : Z) (c : gmap Z string) : Prop :=
  (forall i, 0 <= i < j -> c !! i = Some "X"%string) /\
  (forall i, j <= i < a -> c !! i = Some "0"%string) /\
  (forall i, a <= i < a + j -> c !! i = Some "Y"%string) /\
  (forall i, a + j <= i < a + b -> c !! i = Some "1"%string) /\
  c !! (-1) = None /\
  default "_"%string (c !! (a + b)) = "_"%string.

(** * Properties *)

(** ** The tape *)

Lemma enumerate_fold_lookup (l : list string) :
  forall (i0 : Z) (c : gmap Z string) (k : Z),
    foldl (fun c '(i, sym) => <[i := sym]> c) c (enumerate_from i0 l) !! k =
      if bool_decide (i0 <= k < i0 + Z.of_nat (length l))
      then l !! Z.to_nat (k - i0)
      else c !! k.
Proof.
  induction l as [|x l IH]; intros i0 c k; simpl.
  - rewrite bool_decide_eq_false_2 by lia. reflexivity.
  - rewrite IH. destruct (decide (k = i0)) as [->|Hne].
    + rewrite bool_decide_eq_false_2 by lia.
      rewrite bool_decide_eq_true_2 by lia.
      rewrite lookup_insert_eq. by rewrite Z.sub_diag.
    + rewrite lookup_insert_ne by congruence.
      destruct (decide (i0 + 1 <= k < i0 + 1 + Z.of_nat (length l))) as [Hin|Hout].
      * rewrite !bool_decide_eq_true_2 by lia.
        replace (Z.to_nat (k - i0)) with (S (Z.to_nat (k - (i0 + 1)))) by lia.
        reflexivity.
      * rewrite !bool_decide_eq_false_2 by lia. reflexivity.
Qed.

Lemma Tape_init_seeded (s blank : string) : seeded_with s (Tape.init s blank).
Proof.
  intros i. unfold Tape.init; simpl.
  case_bool_decide as Hs.
  - unfold enumerate. rewrite enumerate_fold_lookup, lookup_empty.
    case_bool_decide as Hi.
    + rewrite bool_decide_eq_true_2 by lia. by rewrite Z.sub_0_r.
    + case_bool_decide as H0; [|done].
      symmetry. apply lookup_ge_None_2. lia.
  - assert (s = EmptyString) as -> by (destruct (decide (s = EmptyString)); [done|tauto]).
    rewrite lookup_empty. simpl. by case_bool_decide.
Qed.

Lemma Tape_init_head (s blank : string) : Tape.head (Tape.init s blank) = 0.
Proof. reflexivity. Qed.

(** ** load_input *)

Lemma invalid_input_iff (s : string) (m : TuringMachine.t) :
  TuringMachine.invalid_input s m = true <->
  exists c, c ∈ chars s /\ (c ∉ TuringMachine.input_alphabet m) /\ c <> TuringMachine.blank m.
Proof.
  unfold TuringMachine.invalid_input.
  rewrite bool_decide_eq_true, Exists_exists.
  split; intros (c & Hc & H); exists c; split; try done.
  - rewrite elem_of_app, list_elem_of_singleton in H. tauto.
  - rewrite elem_of_app, list_elem_of_singleton. tauto.
Qed.

Lemma load_input_same_statics (s : string) (m : TuringMachine.t) :
  let m' := snd (TuringMachine.load_input s m) in
  TuringMachine.input_alphabet m' = TuringMachine.input_alphabet m /\
  TuringMachine.blank m' = TuringMachine.blank m /\
  TuringMachine.initial_state m' = TuringMachine.initial_state m /\
  same_sets m m'.
Proof.
  unfold TuringMachine.load_input, same_sets.
  destruct (TuringMachine.invalid_input s m); simpl; auto.
Qed.

Lemma load_input_outcome (s : string) (m : TuringMachine.t) :
  TuringMachine.load_input s m =
    if TuringMachine.invalid_input s m
    then (Raise InvalidInputSymbol, m)
    else (Return tt,
          TuringMachine.set_current_state (Some (TuringMachine.initial_state m))
            (TuringMachine.set_tape
               (Some (Tape.init s (TuringMachine.blank m))) m)).
Proof. unfold TuringMachine.load_input. by destruct (TuringMachine.invalid_input s m). Qed.

(** ** step *)

Lemma in_accept_states_true (m : TuringMachine.t) (q : string) :
  TuringMachine.current_state m = Some q ->
  q ∈ TuringMachine.accept_states m ->
  TuringMachine.in_accept_states m = true.
Proof.
  intros Hq Hin. unfold TuringMachine.in_accept_states. rewrite Hq.
  by apply bool_decide_eq_true_2.
Qed.

Lemma in_accept_states_false (m : TuringMachine.t) (q : string) :
  TuringMachine.current_state m = Some q ->
  q ∉ TuringMachine.accept_states m ->
  TuringMachine.in_accept_states m = false.
Proof.
  intros Hq Hin. unfold TuringMachine.in_accept_states. rewrite Hq.
  by apply bool_decide_eq_false_2.
Qed.

Lemma in_reject_states_false (m : TuringMachine.t) (q : string) :
  TuringMachine.current_state m = Some q ->
  q ∉ TuringMachine.reject_states m ->
  TuringMachine.in_reject_states m = false.
Proof.
  intros Hq Hin. unfold TuringMachine.in_reject_states. rewrite Hq.
  by apply bool_decide_eq_false_2.
Qed.

(** A call of [step] that does not return ['continue'] leaves the machine
    object as it was: every return before line 110 precedes the first
    assignment, and so does the failed attribute access. *)
Lemma step_halt_frame (m m' : TuringMachine.t) (r : outcome status) :
  TuringMachine.step m = (r, m') -> r <> Return Continue -> m' = m.
Proof.
  unfold TuringMachine.step. intros H Hr.
  repeat match type of H with
         | context [if ?b then _ else _] => destruct b
         | context [match ?x with _ => _ end] => destruct x
         end; inversion H; subst; congruence.
Qed.

(** [step] only ever returns one of its three strings. *)
Lemma step_never_loop (m m' : TuringMachine.t) :
  TuringMachine.step m <> (Return Loop, m').
Proof.
  unfold TuringMachine.step. intros H.
  repeat match type of H with
         | context [if ?b then _ else _] => destruct b
         | context [match ?x with _ => _ end] => destruct x
         end; inversion H.
Qed.

(** With a tape loaded, [step] returns, and the machine still has a tape. *)
Lemma step_loaded (m : TuringMachine.t) (tp : Tape.t) :
  TuringMachine.tape m = Some tp ->
  exists r m' tp',
    TuringMachine.step m = (Return r, m') /\ TuringMachine.tape m' = Some tp'.
Proof.
  intros Ht. unfold TuringMachine.step. rewrite Ht.
  destruct (TuringMachine.in_accept_states m); [by eauto 6|].
  destruct (TuringMachine.in_reject_states m); [by eauto 6|].
  destruct (TransitionFunction.get _ _ _) as [[[q' s'] d']|]; [|by eauto 6].
  do 3 eexists. split; [reflexivity|]. reflexivity.
Qed.

(** [step] changes nothing but the tape and the current state. *)
Lemma step_same_sets (m : TuringMachine.t) :
  same_sets m (snd (TuringMachine.step m)).
Proof.
  unfold TuringMachine.step, same_sets.
  repeat match goal with
         | |- context [if ?b then _ else _] => destruct b
         | |- context [match ?x with _ => _ end] => destruct x
         end; simpl; auto.
Qed.

Lemma get_config_loaded (m : TuringMachine.t) (tp : Tape.t) :
  TuringMachine.tape m = Some tp ->
  TuringMachine.get_config m =
    (Return {| estado := TuringMachine.current_state m;
               cinta := Tape.str tp;
               cabezal := Tape.head tp |}, m).
Proof. intros Ht. unfold TuringMachine.get_config. by rewrite Ht. Qed.

(** ** One iteration of the run loop *)

Lemma run_loop_stop (sbs : bool) (fuel : nat) (ms steps : Z) (hist : list config)
    (w : world) :
  ~ steps < ms ->
  run_loop sbs fuel ms steps hist w = (Return (Loop, hist), w).
Proof.
  intros H. destruct fuel; cbn [run_loop]; by rewrite bool_decide_eq_false_2.
Qed.

Lemma run_loop_out_of_fuel (sbs : bool) (ms steps : Z) (hist : list config)
    (w : world) :
  steps < ms ->
  run_loop sbs 0 ms steps hist w = (Diverge, w).
Proof. intros H. cbn [run_loop]. by rewrite bool_decide_eq_true_2. Qed.

Lemma run_loop_no_tape (sbs : bool) (fuel : nat) (ms steps : Z)
    (hist : list config) (w : world) :
  steps < ms -> TuringMachine.tape (self w) = None ->
  run_loop sbs (S fuel) ms steps hist w = (Raise AttributeError, w).
Proof.
  intros H Ht. cbn [run_loop]. rewrite bool_decide_eq_true_2 by done.
  unfold bind, on_self, TuringMachine.get_config. rewrite Ht. by destruct w.
Qed.

Lemma run_loop_eof (fuel : nat) (ms steps : Z) (hist : list config)
    (m : TuringMachine.t) (tp : Tape.t) (c : console) (l : list status) :
  steps < ms -> TuringMachine.tape m = Some tp -> stdin c = [] ->
  run_loop true (S fuel) ms steps hist (mk_world m c l) =
    (Raise EOFError,
     mk_world m
       {| stdout := stdout c ++ [Paso (steps + 1) (config_of m tp);
                                 Prompt "Presiona Enter para continuar...."];
          stdin := [] |} l).
Proof.
  intros H Ht Hin. cbn [run_loop]. rewrite bool_decide_eq_true_2 by done.
  unfold bind, on_self. cbn [self io step_calls].
  rewrite (get_config_loaded _ _ Ht).
  unfold print, input, modify; simpl. rewrite Hin.
  by rewrite <- app_assoc.
Qed.

Lemma run_loop_iter (sbs : bool) (fuel : nat) (ms steps : Z) (hist : list config)
    (m m' : TuringMachine.t) (tp : Tape.t) (c : console) (l : list status)
    (r : status) :
  steps < ms -> TuringMachine.tape m = Some tp ->
  (sbs = true -> stdin c <> []) ->
  TuringMachine.step m = (Return r, m') ->
  run_loop sbs (S fuel) ms steps hist (mk_world m c l) =
    let cfg := config_of m tp in
    let c1 := console_after_trace sbs steps cfg c in
    if bool_decide (r <> Continue)
    then (Return (r, hist ++ [cfg; cfg]), mk_world m c1 (l ++ [r]))
    else run_loop sbs fuel ms (steps + 1) (hist ++ [cfg]) (mk_world m' c1 (l ++ [r])).
Proof.
  intros H Ht Hin Hstep. cbn [run_loop]. rewrite bool_decide_eq_true_2 by done.
  unfold bind at 1, on_self at 1. cbn [self io step_calls].
  rewrite (get_config_loaded _ _ Ht).
  fold (config_of m tp). cbv zeta.
  assert (Hm : r <> Continue -> m' = m).
  { intros Hr. apply (step_halt_frame _ _ _ Hstep). congruence. }
  destruct sbs.
  - destruct (stdin c) as [|line rest] eqn:Hc; [by destruct Hin|].
    unfold bind, on_self, call_step, bind, on_self, print, input, modify, ret.
    cbn [self io step_calls stdin stdout]. rewrite Hc.
    cbn [self io step_calls stdin stdout]. rewrite Hstep.
    cbn [self io step_calls stdin stdout].
    unfold console_after_trace. rewrite Hc. cbn [tail]. rewrite <- !app_assoc.
    case_bool_decide as Hr; [|done].
    cbn [self io step_calls stdin stdout app].
    rewrite (Hm Hr), (get_config_loaded _ _ Ht). fold (config_of m tp).
    by rewrite <- app_assoc.
  - unfold bind, on_self, call_step, bind, on_self, modify, ret.
    cbn [self io step_calls stdin stdout]. rewrite Hstep.
    cbn [self io step_calls stdin stdout console_after_trace].
    case_bool_decide as Hr; [|done].
    cbn [self io step_calls stdin stdout app].
    rewrite (Hm Hr), (get_config_loaded _ _ Ht). fold (config_of m tp).
    by rewrite <- app_assoc.
Qed.

(** The four ways one iteration can go: the machine has no tape; the trace
    block finds standard input exhausted; [step] halts; [step] continues. *)
Lemma run_loop_cases (sbs : bool) (fuel : nat) (ms steps : Z) (hist : list config)
    (m : TuringMachine.t) (c : console) (l : list status) :
  steps < ms ->
  (TuringMachine.tape m = None /\
   run_loop sbs (S fuel) ms steps hist (mk_world m c l) =
     (Raise AttributeError, mk_world m c l))
  \/ (exists c', sbs = true /\ stdin c = [] /\
      run_loop sbs (S fuel) ms steps hist (mk_world m c l) =
        (Raise EOFError, mk_world m c' l))
  \/ (exists tp r,
        TuringMachine.tape m = Some tp /\ (sbs = true -> stdin c <> []) /\
        TuringMachine.step m = (Return r, m) /\ r <> Continue /\ r <> Loop /\
        run_loop sbs (S fuel) ms steps hist (mk_world m c l) =
          (Return (r, hist ++ [config_of m tp; config_of m tp]),
           mk_world m (console_after_trace sbs steps (config_of m tp) c) (l ++ [r])))
  \/ (exists tp m' tp',
        TuringMachine.tape m = Some tp /\ (sbs = true -> stdin c <> []) /\
        TuringMachine.step m = (Return Continue, m') /\
        TuringMachine.tape m' = Some tp' /\
        run_loop sbs (S fuel) ms steps hist (mk_world m c l) =
          run_loop sbs fuel ms (steps + 1) (hist ++ [config_of m tp])
            (mk_world m' (console_after_trace sbs steps (config_of m tp) c)
               (l ++ [Continue]))).
Proof.
  intros H.
  destruct (TuringMachine.tape m) as [tp|] eqn:Ht.
  2: { left. split; [done|]. by apply run_loop_no_tape. }
  right.
  destruct (decide (sbs = true /\ stdin c = [])) as [[-> Hc]|Hio].
  { left. eexists. split; [done|]. split; [done|]. by eapply run_loop_eof. }
  right.
  assert (Hin : sbs = true -> stdin c <> []) by (intros -> Hc; by apply Hio).
  destruct (step_loaded m tp Ht) as (r & m' & tp' & Hstep & Ht').
  pose proof (run_loop_iter sbs fuel ms steps hist m m' tp c l r H Ht Hin Hstep) as E.
  cbv zeta in E.
  destruct (decide (r = Continue)) as [->|Hr].
  - right. exists tp, m', tp'. rewrite bool_decide_eq_false_2 in E by tauto.
    by repeat split.
  - left. exists tp, r. rewrite bool_decide_eq_true_2 in E by done.
    assert (m' = m) as -> by (apply (step_halt_frame _ _ _ Hstep); congruence).
    repeat split; try done.
    intros ->. by apply (step_never_loop m m).
Qed.

(** ** The run loop as a whole *)

(** Fuel: [max_steps - steps] iterations are enough, so the loop of the model
    ends as the source's does. *)
Lemma run_loop_fuel_enough (sbs : bool) (fuel : nat) :
  forall (ms steps : Z) (hist : list config) (w : world),
    (Z.to_nat (ms - steps) <= fuel)%nat ->
    fst (run_loop sbs fuel ms steps hist w) <> Diverge.
Proof.
  induction fuel as [|fuel IH]; intros ms steps hist [m c l] Hfuel.
  - rewrite run_loop_stop by lia. done.
  - destruct (decide (steps < ms)) as [Hlt|Hge]; [|by rewrite run_loop_stop].
    destruct (run_loop_cases sbs fuel ms steps hist m c l Hlt)
      as [[_ E]|[(c' & _ & _ & E)|[(tp & r & _ & _ & _ & _ & _ & E)
         |(tp & m' & tp' & _ & _ & _ & _ & E)]]]; rewrite E; try done.
    apply IH. lia.
Qed.

(** The loop calls [step] at most [max_steps - steps] times, whatever the
    fuel. *)
Lemma run_loop_calls_bound (sbs : bool) (fuel : nat) :
  forall (ms steps : Z) (hist : list config) (w : world),
    (length (step_calls (snd (run_loop sbs fuel ms steps hist w)))
     <= length (step_calls w) + Z.to_nat (ms - steps))%nat.
Proof.
  induction fuel as [|fuel IH]; intros ms steps hist [m c l].
  - destruct (decide (steps < ms)) as [Hlt|Hge].
    + rewrite run_loop_out_of_fuel by done. simpl. lia.
    + rewrite run_loop_stop by done. simpl. lia.
  - destruct (decide (steps < ms)) as [Hlt|Hge].
    2: { rewrite run_loop_stop by done. simpl. lia. }
    destruct (run_loop_cases sbs fuel ms steps hist m c l Hlt)
      as [[_ E]|[(c' & _ & _ & E)|[(tp & r & _ & _ & _ & _ & _ & E)
         |(tp & m' & tp' & _ & _ & _ & _ & E)]]]; rewrite E; simpl.
    + lia.
    + lia.
    + rewrite length_app. simpl. lia.
    + etrans; [apply IH|]. simpl. rewrite length_app. simpl. lia.
Qed.

Lemma same_sets_refl (m : TuringMachine.t) : same_sets m m.
Proof. by split. Qed.

Lemma same_sets_trans (m1 m2 m3 : TuringMachine.t) :
  same_sets m1 m2 -> same_sets m2 m3 -> same_sets m1 m3.
Proof. unfold same_sets. intros [-> ->] [-> ->]. done. Qed.

Lemma run_loop_same_sets (sbs : bool) (fuel : nat) :
  forall (ms steps : Z) (hist : list config) (w : world),
    same_sets (self w) (self (snd (run_loop sbs fuel ms steps hist w))).
Proof.
  induction fuel as [|fuel IH]; intros ms steps hist [m c l].
  - destruct (decide (steps < ms)) as [Hlt|Hge].
    + rewrite run_loop_out_of_fuel by done. apply same_sets_refl.
    + rewrite run_loop_stop by done. apply same_sets_refl.
  - destruct (decide (steps < ms)) as [Hlt|Hge].
    2: { rewrite run_loop_stop by done. apply same_sets_refl. }
    destruct (run_loop_cases sbs fuel ms steps hist m c l Hlt)
      as [[_ E]|[(c' & _ & _ & E)|[(tp & r & _ & _ & _ & _ & _ & E)
         |(tp & m' & tp' & _ & _ & Hstep & _ & E)]]]; rewrite E;
      try apply same_sets_refl.
    eapply same_sets_trans; [|apply IH]. simpl.
    pose proof (step_same_sets m) as Hs. by rewrite Hstep in Hs.
Qed.

Lemma run_fuel_unfold (fuel : nat) (ms : Z) (sbs : bool) (w : world) :
  run_fuel fuel ms sbs w =
    match TuringMachine.tape (self w) with
    | None => (Raise NotInitialized, w)
    | Some _ => run_loop sbs fuel ms 0 [] w
    end.
Proof.
  unfold run_fuel, bind, gets, raise.
  by destruct (TuringMachine.tape (self w)).
Qed.

(** With a line on standard input for every iteration, the step-by-step loop
    and the quiet loop go through the same machine states and end alike; the
    quiet loop leaves its console untouched. *)
Lemma run_loop_trace_irrelevant (fuel : nat) :
  forall (ms steps : Z) (hist : list config) (m : TuringMachine.t)
         (c c2 : console) (l : list status),
    (Z.to_nat (ms - steps) <= length (stdin c))%nat ->
    let r1 := run_loop true fuel ms steps hist (mk_world m c l) in
    let r2 := run_loop false fuel ms steps hist (mk_world m c2 l) in
    fst r1 = fst r2 /\ self (snd r1) = self (snd r2) /\
    step_calls (snd r1) = step_calls (snd r2) /\ io (snd r2) = c2.
Proof.
  induction fuel as [|fuel IH]; intros ms steps hist m c c2 l Hin; cbv zeta.
  - destruct (decide (steps < ms)) as [Hlt|Hge].
    + by rewrite !run_loop_out_of_fuel.
    + by rewrite !run_loop_stop.
  - destruct (decide (steps < ms)) as [Hlt|Hge]; [|by rewrite !run_loop_stop].
    assert (Hc : true = true -> stdin c <> []).
    { intros _ Hc. rewrite Hc in Hin. simpl in Hin. lia. }
    destruct (run_loop_cases false fuel ms steps hist m c2 l Hlt)
      as [[Ht E]|[(c' & ? & _)|[(tp & r & Ht & _ & Hstep & Hr & _ & E)
         |(tp & m' & tp' & Ht & _ & Hstep & Ht' & E)]]]; [| done | |].
    + rewrite E, run_loop_no_tape by done. done.
    + rewrite E, (run_loop_iter true fuel ms steps hist m m tp c l r) by done.
      cbv zeta. by rewrite bool_decide_eq_true_2.
    + rewrite E, (run_loop_iter true fuel ms steps hist m m' tp c l Continue) by done.
      cbv zeta. rewrite bool_decide_eq_false_2 by tauto.
      apply IH. simpl. destruct (stdin c); simpl in *; lia.
Qed.

(** A loop that returns ['accept'] or ['reject'] has recorded one
    configuration per continuing step, then the halting configuration
    twice; the log holds the continuing calls, then the halting call. *)
Lemma run_loop_halt_shape (sbs : bool) (fuel : nat) :
  forall (ms steps : Z) (hist : list config) (w w' : world) (r : status)
         (h : list config),
    run_loop sbs fuel ms steps hist w = (Return (r, h), w') ->
    r <> Loop ->
    exists (h1 : list config) (cfg : config),
      h = hist ++ h1 ++ [cfg; cfg] /\
      step_calls w' = step_calls w ++ replicate (length h1) Continue ++ [r] /\
      r <> Continue.
Proof.
  induction fuel as [|fuel IH]; intros ms steps hist [m c l] w' r h Hrun Hr.
  - destruct (decide (steps < ms)) as [Hlt|Hge].
    + by rewrite run_loop_out_of_fuel in Hrun.
    + rewrite run_loop_stop in Hrun by done. congruence.
  - destruct (decide (steps < ms)) as [Hlt|Hge].
    2: { rewrite run_loop_stop in Hrun by done. congruence. }
    destruct (run_loop_cases sbs fuel ms steps hist m c l Hlt)
      as [[_ E]|[(c' & _ & _ & E)|[(tp & r0 & _ & _ & _ & Hr0 & _ & E)
         |(tp & m' & tp' & _ & _ & _ & _ & E)]]]; rewrite E in Hrun;
      try discriminate.
    + inversion Hrun; subst. exists [], (config_of m tp). by simpl.
    + destruct (IH _ _ _ _ _ _ _ Hrun Hr) as (h1 & cfg & -> & Hcalls & Hc).
      exists (config_of m tp :: h1), cfg. simpl in *.
      rewrite Hcalls, <- !app_assoc. by simpl.
Qed.

(** When [step] continues from each of the first [max_steps - steps] machine
    states, the loop runs out its budget: it returns ['loop'] with one
    configuration per iteration and has called [step] once per iteration. *)
Lemma run_loop_all_continue (sbs : bool) (fuel : nat) :
  forall (ms steps : Z) (hist : list config) (m : TuringMachine.t) (tp : Tape.t)
         (c : console) (l : list status),
    let n := Z.to_nat (ms - steps) in
    (n <= fuel)%nat ->
    TuringMachine.tape m = Some tp ->
    (sbs = true -> (n <= length (stdin c))%nat) ->
    Forall (fun mk => fst (TuringMachine.step mk) = Return Continue) (visited n m) ->
    exists (h : list config) (w' : world),
      run_loop sbs fuel ms steps hist (mk_world m c l) = (Return (Loop, hist ++ h), w') /\
      Forall2 (fun mk cfg => fst (TuringMachine.get_config mk) = Return cfg)
              (visited n m) h /\
      step_calls w' = l ++ replicate n Continue.
Proof.
  induction fuel as [|fuel IH]; intros ms steps hist m tp c l n Hfuel Ht Hin Hall.
  - assert (n = 0%nat) as Hn by lia. rewrite run_loop_stop by lia.
    exists [], (mk_world m c l). rewrite Hn, !app_nil_r. simpl. by repeat split.
  - destruct (decide (steps < ms)) as [Hlt|Hge].
    2: { assert (n = 0%nat) as Hn by lia. rewrite run_loop_stop by done.
         exists [], (mk_world m c l). rewrite Hn, !app_nil_r. simpl. by repeat split. }
    assert (Hn : n = S (Z.to_nat (ms - (steps + 1)))) by lia.
    rewrite Hn in Hall, Hin |- *. cbn [visited replicate] in Hall |- *.
    apply Forall_cons in Hall as [Hm Hall].
    destruct (run_loop_cases sbs fuel ms steps hist m c l Hlt)
      as [[Ht' _]|[(c' & -> & Hc & _)|[(tp0 & r & _ & _ & Hstep & Hr & _ & _)
         |(tp0 & m' & tp' & Ht0 & _ & Hstep & Ht' & E)]]].
    + congruence.
    + specialize (Hin eq_refl). rewrite Hc in Hin. simpl in Hin. lia.
    + rewrite Hstep in Hm. simpl in Hm. congruence.
    + rewrite Hstep in Hall |- *. cbn [snd] in Hall |- *.
      assert (tp0 = tp) as -> by congruence.
      destruct (IH ms (steps + 1) (hist ++ [config_of m tp]) m' tp'
                  (console_after_trace sbs steps (config_of m tp) c)
                  (l ++ [Continue])) as (h & w' & Erun & Hh & Hcalls);
        [lia | done | | done |].
      { intros ->. specialize (Hin eq_refl). simpl.
        destruct (stdin c); simpl in *; lia. }
      exists (config_of m tp :: h), w'. rewrite E, Erun.
      split; [by rewrite <- app_assoc|]. split.
      * constructor; [by rewrite (get_config_loaded _ _ Ht)|done].
      * rewrite Hcalls, <- app_assoc. done.
Qed.

(** Without step-by-step mode, a run on a loaded machine returns a status
    and a history: it raises nothing. *)
Lemma run_loop_quiet_returns (fuel : nat) :
  forall (ms steps : Z) (hist : list config) (m : TuringMachine.t) (tp : Tape.t)
         (c : console) (l : list status),
    (Z.to_nat (ms - steps) <= fuel)%nat ->
    TuringMachine.tape m = Some tp ->
    exists r h, fst (run_loop false fuel ms steps hist (mk_world m c l)) = Return (r, h).
Proof.
  induction fuel as [|fuel IH]; intros ms steps hist m tp c l Hfuel Ht.
  - rewrite run_loop_stop by lia. by eauto.
  - destruct (decide (steps < ms)) as [Hlt|Hge].
    2: { rewrite run_loop_stop by done. by eauto. }
    destruct (run_loop_cases false fuel ms steps hist m c l Hlt)
      as [[Ht' _]|[(c' & ? & _)|[(tp0 & r & _ & _ & _ & _ & _ & E)
         |(tp0 & m' & tp' & _ & _ & _ & Ht' & E)]]]; [congruence | done | |].
    + rewrite E. by eauto.
    + rewrite E. eapply IH; [lia|done].
Qed.

Lemma visited_length (n : nat) :
  forall m : TuringMachine.t, length (visited n m) = n.
Proof. induction n as [|n IH]; intros m; simpl; [done|]. by rewrite IH. Qed.


Lemma step_unloaded (m : TuringMachine.t) :
  TuringMachine.tape m = None -> TuringMachine.current_state m = None ->
  TuringMachine.step m = (Raise AttributeError, m).
Proof.
  intros Ht Hq.
  unfold TuringMachine.step, TuringMachine.in_accept_states,
    TuringMachine.in_reject_states.
  by rewrite Hq, Ht.
Qed.

Lemma run_unloaded (ms : Z) (sbs : bool) (w : world) :
  TuringMachine.tape (self w) = None ->
  run ms sbs w = (Raise NotInitialized, w).
Proof. intros Ht. unfold run. by rewrite run_fuel_unfold, Ht. Qed.

(** The model's loop never runs out of fuel inside [run]. *)
Lemma run_never_diverges (ms : Z) (sbs : bool) (w : world) :
  fst (run ms sbs w) <> Diverge.
Proof.
  unfold run. rewrite run_fuel_unfold.
  destruct (TuringMachine.tape (self w)); [|done].
  apply run_loop_fuel_enough. lia.
Qed.

(** In step-by-step mode a prompt that finds standard input exhausted ends
    the run with [EOFError], before [step] is called. *)
Lemma run_trace_eof (ms : Z) (m : TuringMachine.t) (tp : Tape.t)
    (out : list output) (l : list status) :
  0 < ms -> TuringMachine.tape m = Some tp ->
  fst (run ms true (mk_world m (mk_console out []) l)) = Raise EOFError /\
  step_calls (snd (run ms true (mk_world m (mk_console out []) l))) = l.
Proof.
  intros Hms Ht. unfold run. rewrite run_fuel_unfold. simpl. rewrite Ht.
  destruct (Z.to_nat ms) as [|fuel] eqn:Hn; [lia|].
  by rewrite (run_loop_eof fuel ms 0 [] m tp (mk_console out []) l Hms Ht eq_refl).
Qed.

(** The step-by-step loop and the quiet loop differ only where a prompt
    finds standard input exhausted: unless the step-by-step loop ends with
    [EOFError], both go through the same machine states and end alike, and
    the quiet loop leaves its console untouched. *)
Lemma run_loop_trace_unless_eof (fuel : nat) :
  forall (ms steps : Z) (hist : list config) (m : TuringMachine.t)
         (c c2 : console) (l : list status),
    fst (run_loop true fuel ms steps hist (mk_world m c l)) <> Raise EOFError ->
    let r1 := run_loop true fuel ms steps hist (mk_world m c l) in
    let r2 := run_loop false fuel ms steps hist (mk_world m c2 l) in
    fst r1 = fst r2 /\ self (snd r1) = self (snd r2) /\
    step_calls (snd r1) = step_calls (snd r2) /\ io (snd r2) = c2.
Proof.
  induction fuel as [|fuel IH]; intros ms steps hist m c c2 l Hne; cbv zeta.
  - destruct (decide (steps < ms)) as [Hlt|Hge].
    + by rewrite !run_loop_out_of_fuel.
    + by rewrite !run_loop_stop.
  - destruct (decide (steps < ms)) as [Hlt|Hge]; [|by rewrite !run_loop_stop].
    assert (Hq : false = true -> stdin c2 <> []) by discriminate.
    destruct (run_loop_cases true fuel ms steps hist m c l Hlt)
      as [[Ht E]|[(c' & _ & _ & E)|[(tp & r & Ht & _ & Hstep & Hr & _ & E)
         |(tp & m' & tp' & Ht & _ & Hstep & Ht' & E)]]].
    + rewrite E, run_loop_no_tape by done. done.
    + rewrite E in Hne. by destruct Hne.
    + rewrite E, (run_loop_iter false fuel ms steps hist m m tp c2 l r) by done.
      cbv zeta. by rewrite bool_decide_eq_true_2.
    + rewrite E in Hne |- *.
      rewrite (run_loop_iter false fuel ms steps hist m m' tp c2 l Continue) by done.
      cbv zeta. rewrite bool_decide_eq_false_2 by tauto.
      by apply IH.
Qed.

Lemma last_two {A : Type} (l : list A) (a b : A) : last (l ++ [a; b]) = Some b.
Proof.
  replace (l ++ [a; b]) with ((l ++ [a]) ++ [b]) by (by rewrite <- app_assoc).
  apply last_snoc.
Qed.


(** ** The claims *)

(** C1. The bundled recognizer of 0^n 1^n, after [load_input] and [run] with
    a budget of 1000 steps, accepts the inputs "", "01" and "0011" and
    rejects "001", "1100" and "0101"; the same verdicts come out when the
    six rows are run one after the other on one machine object, as the
    script does. *)
Theorem on1n_test_table :
  on1n_verdict "" = Return Accept /\
  on1n_verdict "01" = Return Accept /\
  on1n_verdict "0011" = Return Accept /\
  on1n_verdict "001" = Return Reject /\
  on1n_verdict "1100" = Return Reject /\
  on1n_verdict "0101" = Return Reject /\
  fst (run_tests [""; "01"; "0011"; "001"; "1100"; "0101"]%string
         (world_of create_on1n_machine [])) =
    Return [Accept; Accept; Accept; Reject; Reject; Reject].
Proof. vm_compute. repeat split. Qed.

(** C2, as stated, fails: the blank symbol is outside the input alphabet of
    the bundled machine, yet [load_input("_")] raises nothing. *)
Lemma load_input_accepts_blank :
  ~ (fst (TuringMachine.load_input "_" create_on1n_machine) = Raise InvalidInputSymbol
     <-> exists c, c ∈ chars "_" /\
                   (c ∉ TuringMachine.input_alphabet create_on1n_machine)).
Proof.
  intros [_ H].
  assert (E : fst (TuringMachine.load_input "_" create_on1n_machine)
              = Raise InvalidInputSymbol).
  { apply H. exists "_"%string. split; apply (bool_decide_unpack _); vm_compute; exact I. }
  vm_compute in E. discriminate E.
Qed.

(** C2, amended. [load_input] raises the invalid-symbol error exactly when
    some character of the string is neither in the input alphabet nor the
    blank symbol, and then leaves the machine as it was; otherwise it
    installs a tape seeded with the string, head at 0, and sets the current
    state to the start state, changing nothing else. *)
Theorem load_input_validates (m : TuringMachine.t) (s : string) :
  (fst (TuringMachine.load_input s m) = Raise InvalidInputSymbol <->
   exists c, c ∈ chars s /\ (c ∉ TuringMachine.input_alphabet m) /\
             c <> TuringMachine.blank m) /\
  (TuringMachine.load_input s m = (Raise InvalidInputSymbol, m) \/
   exists tp,
     TuringMachine.load_input s m =
       (Return tt,
        TuringMachine.set_current_state (Some (TuringMachine.initial_state m))
          (TuringMachine.set_tape (Some tp) m)) /\
     seeded_with s tp /\ Tape.head tp = 0 /\ Tape.blank tp = TuringMachine.blank m).
Proof.
  rewrite load_input_outcome, <- invalid_input_iff.
  destruct (TuringMachine.invalid_input s m); simpl.
  - split; [done|]. by left.
  - split; [split; discriminate|]. right.
    exists (Tape.init s (TuringMachine.blank m)).
    split; [done|]. split; [apply Tape_init_seeded|done].
Qed.

(** C4. When the current state is neither accepting nor rejecting and the
    table has no entry for it and the symbol under the head, [step] returns
    ['reject'] as a value and the machine object is unchanged: tape contents,
    head position and current state are as before. *)
Theorem step_no_transition (m : TuringMachine.t) (tp : Tape.t) (q : string) :
  TuringMachine.tape m = Some tp ->
  TuringMachine.current_state m = Some q ->
  q ∉ TuringMachine.accept_states m ->
  q ∉ TuringMachine.reject_states m ->
  TransitionFunction.get (Some q) (Tape.read tp)
    (TuringMachine.transition_function m) = None ->
  TuringMachine.step m = (Return Reject, m).
Proof.
  intros Ht Hq Hacc Hrej Hnone. unfold TuringMachine.step.
  rewrite (in_accept_states_false m q Hq Hacc).
  rewrite (in_reject_states_false m q Hq Hrej).
  by rewrite Ht, Hq, Hnone.
Qed.

Lemma step_no_transition_witness :
  TuringMachine.step no_rule_machine = (Return Reject, no_rule_machine).
Proof.
  apply (step_no_transition no_rule_machine (Tape.init "1" "_") "q0").
  - vm_compute. reflexivity.
  - vm_compute. reflexivity.
  - apply (bool_decide_unpack _). vm_compute. exact I.
  - apply (bool_decide_unpack _). vm_compute. exact I.
  - vm_compute. reflexivity.
Defined.

(** C5. When the current state is in the accept set, [step] returns
    ['accept'] and the machine object is unchanged: tape contents, head
    position and current state are as before. *)
Theorem step_accept_frame (m : TuringMachine.t) (q : string) :
  TuringMachine.current_state m = Some q ->
  q ∈ TuringMachine.accept_states m ->
  TuringMachine.step m = (Return Accept, m).
Proof.
  intros Hq Hacc. unfold TuringMachine.step.
  by rewrite (in_accept_states_true m q Hq Hacc).
Qed.

Lemma step_accept_frame_witness :
  TuringMachine.step on1n_accepted_01 = (Return Accept, on1n_accepted_01).
Proof.
  apply (step_accept_frame on1n_accepted_01 "q_accept").
  - vm_compute. reflexivity.
  - apply (bool_decide_unpack _). vm_compute. exact I.
Defined.

(** C3. On a machine with a loaded tape, [run] calls [step] at most
    [max_steps] times (no call at all for a budget of zero or less), and
    this whatever fuel the model's loop is given.  When [step] continues
    from each of the first [max_steps] machine states, and in step-by-step
    mode every prompt finds a line to read, [run] returns ['loop'] with the
    history accumulated so far: the configuration met at the start of each
    iteration, one per call of [step]. *)
Theorem run_step_budget (m : TuringMachine.t) (tp : Tape.t) (max_steps : Z)
    (step_by_step : bool) (c : console) :
  TuringMachine.tape m = Some tp ->
  let w := mk_world m c [] in
  let n := Z.to_nat max_steps in
  (forall fuel,
     Z.of_nat (length (step_calls (snd (run_fuel fuel max_steps step_by_step w))))
       <= Z.max 0 max_steps) /\
  Z.of_nat (length (step_calls (snd (run max_steps step_by_step w))))
    <= Z.max 0 max_steps /\
  (Forall (fun mk => fst (TuringMachine.step mk) = Return Continue) (visited n m) ->
   (step_by_step = true -> (n <= length (stdin c))%nat) ->
   exists (h : list config) (w' : world),
     run max_steps step_by_step w = (Return (Loop, h), w') /\
     Forall2 (fun mk cfg => fst (TuringMachine.get_config mk) = Return cfg)
             (visited n m) h /\
     length h = n /\
     step_calls w' = replicate n Continue).
Proof.
  intros Ht w n.
  assert (Hbound : forall fuel,
             Z.of_nat (length (step_calls (snd (run_fuel fuel max_steps step_by_step w))))
               <= Z.max 0 max_steps).
  { intros fuel. rewrite run_fuel_unfold. simpl. rewrite Ht.
    pose proof (run_loop_calls_bound step_by_step fuel max_steps 0 [] w) as Hb.
    simpl in Hb. lia. }
  split; [exact Hbound|]. split; [apply Hbound|].
  intros Hall Hin.
  destruct (run_loop_all_continue step_by_step (Z.to_nat max_steps) max_steps 0 []
              m tp c []) as (h & w' & Erun & Hh & Hcalls).
  - lia.
  - done.
  - rewrite Z.sub_0_r. exact Hin.
  - rewrite Z.sub_0_r. exact Hall.
  - rewrite Z.sub_0_r in Hh, Hcalls. simpl in Erun, Hcalls.
    exists h, w'. unfold run. rewrite run_fuel_unfold. simpl. rewrite Ht.
    repeat split; try done.
    apply Forall2_length in Hh. rewrite <- Hh. apply visited_length.
Qed.

Lemma run_step_budget_witness :
  Z.of_nat (length (step_calls
     (snd (run 3 false (mk_world on1n_loaded_0011 (mk_console [] []) []))))) <= 3 /\
  exists (h : list config) (w' : world),
    run 3 false (mk_world on1n_loaded_0011 (mk_console [] []) []) = (Return (Loop, h), w') /\
    length h = 3%nat /\ step_calls w' = [Continue; Continue; Continue].
Proof.
  destruct (run_step_budget on1n_loaded_0011 (Tape.init "0011" "_") 3 false
              (mk_console [] [])) as (_ & Hb & Hloop).
  - vm_compute. reflexivity.
  - split; [exact Hb|].
    destruct Hloop as (h & w' & E & _ & Hlen & Hcalls).
    + cbn [visited Z.to_nat Pos.to_nat Pos.iter_op Nat.add].
      repeat (constructor; [vm_compute; reflexivity|]). constructor.
    + discriminate.
    + exists h, w'. repeat split; assumption.
Defined.

(** C6, at a machine on which [load_input] was never called: [run] raises
    the error of line 117, but [step] has no such guard; it goes on to
    [self.tape.read()] and fails on the attribute access instead. *)
Theorem step_before_load_input :
  TuringMachine.step create_on1n_machine = (Raise AttributeError, create_on1n_machine) /\
  AttributeError <> NotInitialized /\
  forall (ms : Z) (sbs : bool) (lines : list string),
    run ms sbs (world_of create_on1n_machine lines) =
      (Raise NotInitialized, world_of create_on1n_machine lines).
Proof.
  split; [by apply step_unloaded|]. split; [discriminate|].
  intros ms sbs lines. by apply run_unloaded.
Qed.

(** C7, as stated, fails: in step-by-step mode each iteration waits on
    [input()], and a prompt that finds standard input exhausted ends the run
    with [EOFError], while the run without that mode returns a status. *)
Lemma trace_mode_eof_differs :
  TuringMachine.tape on1n_loaded_0011 <> None /\
  ~ (fst (run 1 true (world_of on1n_loaded_0011 [])) =
     fst (run 1 false (world_of on1n_loaded_0011 []))).
Proof.
  split; [by vm_compute|]. intros H.
  assert (Hq : verdict_of (fst (run 1 false (world_of on1n_loaded_0011 [])))
               = Return Loop) by (vm_compute; reflexivity).
  assert (Ht : verdict_of (fst (run 1 true (world_of on1n_loaded_0011 [])))
               = Raise EOFError) by (vm_compute; reflexivity).
  rewrite H, Hq in Ht. discriminate Ht.
Qed.

(** C7, amended. On a machine with a loaded tape, unless the step-by-step
    run ends with [EOFError] (a prompt found standard input exhausted), a
    run in step-by-step mode and a run without it, from the same machine
    state, return the same status and the same history, leave the machine
    in the same state and make the same calls of [step]; the quiet run
    returns normally and does not touch the console. *)
Theorem trace_mode_is_side_channel (m : TuringMachine.t) (tp : Tape.t)
    (max_steps : Z) (c : console) (l : list status) :
  TuringMachine.tape m = Some tp ->
  fst (run max_steps true (mk_world m c l)) <> Raise EOFError ->
  let traced := run max_steps true (mk_world m c l) in
  let quiet := run max_steps false (mk_world m c l) in
  fst traced = fst quiet /\
  self (snd traced) = self (snd quiet) /\
  step_calls (snd traced) = step_calls (snd quiet) /\
  io (snd quiet) = c /\
  exists r h, fst quiet = Return (r, h).
Proof.
  intros Ht. cbv zeta. unfold run. rewrite !run_fuel_unfold.
  cbn [self]. rewrite Ht. intros Hne.
  destruct (run_loop_trace_unless_eof (Z.to_nat max_steps) max_steps 0 [] m c c l Hne)
    as (H1 & H2 & H3 & H4).
  repeat split; try done.
  eapply run_loop_quiet_returns; [lia|done].
Qed.

Lemma trace_mode_is_side_channel_witness :
  let w := mk_world on1n_loaded_0011 (mk_console [] (replicate 20 ""%string)) [] in
  fst (run 1000 true w) = fst (run 1000 false w) /\
  self (snd (run 1000 true w)) = self (snd (run 1000 false w)).
Proof.
  assert (Hs : verdict_of
                 (fst (run 1000 true
                         (mk_world on1n_loaded_0011
                            (mk_console [] (replicate 20 ""%string)) [])))
               = Return Accept) by (vm_compute; reflexivity).
  destruct (trace_mode_is_side_channel on1n_loaded_0011 (Tape.init "0011" "_") 1000
              (mk_console [] (replicate 20 ""%string)) [])
    as (H1 & H2 & _).
  - vm_compute. reflexivity.
  - intros He. rewrite He in Hs. discriminate Hs.
  - split; [exact H1|exact H2].
Defined.

(** C8. Once [load_input] has accepted a string, calling it again with the
    same string gives the very same machine state, whose current state is
    the start state and whose tape has its head at 0 and holds exactly the
    characters of the string at positions 0 .. len - 1. *)
Theorem load_input_twice (m m1 : TuringMachine.t) (s : string) :
  TuringMachine.load_input s m = (Return tt, m1) ->
  TuringMachine.load_input s m1 = (Return tt, m1) /\
  TuringMachine.current_state m1 = Some (TuringMachine.initial_state m1) /\
  exists tp,
    TuringMachine.tape m1 = Some tp /\ Tape.head tp = 0 /\ seeded_with s tp.
Proof.
  rewrite !load_input_outcome. intros H.
  destruct (TuringMachine.invalid_input s m) eqn:Hv; [discriminate|].
  inversion H as [Hm1]. clear H.
  assert (Hv1 : TuringMachine.invalid_input s
                  (TuringMachine.set_current_state
                     (Some (TuringMachine.initial_state m))
                     (TuringMachine.set_tape
                        (Some (Tape.init s (TuringMachine.blank m))) m)) = false)
    by exact Hv.
  rewrite Hv1. split; [done|]. split; [done|].
  exists (Tape.init s (TuringMachine.blank m)).
  split; [done|]. split; [done|]. apply Tape_init_seeded.
Qed.

Lemma load_input_twice_witness :
  TuringMachine.load_input "0011" on1n_loaded_0011 = (Return tt, on1n_loaded_0011) /\
  TuringMachine.current_state on1n_loaded_0011 =
    Some (TuringMachine.initial_state on1n_loaded_0011) /\
  exists tp,
    TuringMachine.tape on1n_loaded_0011 = Some tp /\ Tape.head tp = 0 /\
    seeded_with "0011" tp.
Proof.
  apply (load_input_twice create_on1n_machine on1n_loaded_0011 "0011").
  vm_compute. reflexivity.
Defined.

(** C9, as stated, fails: the constructor stores the accept states it is
    given, so a caller who lists "q_reject" gets a machine whose accept set
    and reject set share that state. *)
Lemma constructor_sets_can_overlap : ~ accept_reject_disjoint overlapping_machine.
Proof.
  intros H. apply (H "q_reject"%string).
  - apply (bool_decide_unpack _). vm_compute. exact I.
  - apply (bool_decide_unpack _). vm_compute. exact I.
Qed.

(** C9, amended. The constructor sets the reject set to the one state
    "q_reject" and keeps the caller's accept states as given, so the two
    sets are disjoint exactly when "q_reject" is not among the supplied
    accept states; and [add_transition], [load_input], [step] and [run]
    leave both sets as they are, so disjointness, where it holds, is
    kept. *)
Theorem accept_reject_sets :
  (forall (sts ia ta : list string) (q0 : string) (acc : list string) (b : string),
     let m := TuringMachine.init sts ia ta q0 acc b in
     TuringMachine.reject_states m = {["q_reject"%string]} /\
     TuringMachine.accept_states m = acc /\
     (accept_reject_disjoint m <-> "q_reject"%string ∉ acc)) /\
  (forall (m : TuringMachine.t) (cur rd nxt wr dir : string),
     same_sets m (TuringMachine.add_transition cur rd nxt wr dir m)) /\
  (forall (m : TuringMachine.t) (s : string),
     same_sets m (snd (TuringMachine.load_input s m))) /\
  (forall m : TuringMachine.t, same_sets m (snd (TuringMachine.step m))) /\
  (forall (w : world) (max_steps : Z) (step_by_step : bool),
     same_sets (self w) (self (snd (run max_steps step_by_step w)))) /\
  (forall m m' : TuringMachine.t,
     same_sets m m' -> (accept_reject_disjoint m <-> accept_reject_disjoint m')).
Proof.
  repeat split.
  - intros H Hin. apply (H _ Hin). simpl. set_solver.
  - intros H q Hq. simpl in *. intros ->%elem_of_singleton. done.
  - apply load_input_same_statics.
  - apply load_input_same_statics.
  - apply step_same_sets.
  - apply step_same_sets.
  - unfold run. rewrite run_fuel_unfold.
    destruct (TuringMachine.tape (self w)); [apply run_loop_same_sets|done].
  - unfold run. rewrite run_fuel_unfold.
    destruct (TuringMachine.tape (self w)); [apply run_loop_same_sets|done].
  - destruct H as [Ha Hr]. unfold accept_reject_disjoint. rewrite Ha, Hr. done.
  - destruct H as [Ha Hr]. unfold accept_reject_disjoint. rewrite Ha, Hr. done.
Qed.



(** * Further properties of the code *)

(** ** Tape *)

Lemma write_then_read (sym : string) (t : Tape.t) :
  Tape.read (Tape.write sym t) = sym.
Proof.
  unfold Tape.read, Tape.write.
  destruct (bool_decide (sym = Tape.blank t)) eqn:Hb;
    destruct (bool_decide (Tape.content t !! Tape.head t = None)) eqn:Hn;
    cbn [andb].
  - apply bool_decide_eq_true in Hb, Hn.
    rewrite bool_decide_eq_false_2 by (rewrite Hn; by intros [? ?]).
    by rewrite Hn, Hb.
  - cbn [Tape.content Tape.head Tape.blank]. by rewrite lookup_insert_eq.
  - cbn [Tape.content Tape.head Tape.blank]. by rewrite lookup_insert_eq.
  - cbn [Tape.content Tape.head Tape.blank]. by rewrite lookup_insert_eq.
Qed.

Lemma write_frame (sym : string) (t : Tape.t) :
  Tape.head (Tape.write sym t) = Tape.head t /\
  Tape.blank (Tape.write sym t) = Tape.blank t /\
  forall p : Z, p <> Tape.head t ->
    Tape.content (Tape.write sym t) !! p = Tape.content t !! p.
Proof.
  unfold Tape.write.
  destruct (bool_decide (sym = Tape.blank t)
            && bool_decide (Tape.content t !! Tape.head t = None)).
  - destruct (bool_decide (is_Some (Tape.content t !! Tape.head t)));
      cbn [Tape.content Tape.head Tape.blank]; repeat split; try done.
    intros p Hp. by rewrite lookup_delete_ne.
  - cbn [Tape.content Tape.head Tape.blank]. repeat split.
    intros p Hp. by rewrite lookup_insert_ne.
Qed.

Lemma move_effect (d : string) (t : Tape.t) :
  Tape.move "L" (Tape.move "R" t) = t /\
  Tape.move "R" (Tape.move "L" t) = t /\
  Tape.content (Tape.move d t) = Tape.content t /\
  Tape.blank (Tape.move d t) = Tape.blank t /\
  Tape.head (Tape.move d t) = Tape.head t + displacement d.
Proof.
  destruct t as [c b h]. unfold Tape.move, displacement.
  cbn [Tape.content Tape.head Tape.blank].
  rewrite !(bool_decide_eq_true_2 ("R"%string = "R"%string)) by done.
  rewrite !(bool_decide_eq_false_2 ("L"%string = "R"%string)) by done.
  rewrite !(bool_decide_eq_true_2 ("L"%string = "L"%string)) by done.
  cbn [Tape.content Tape.head Tape.blank].
  repeat split; try (f_equal; lia).
  - by repeat case_bool_decide.
  - by repeat case_bool_decide.
  - repeat case_bool_decide; cbn [Tape.head]; lia.
Qed.

(** X1. Reading right after a write gives the symbol written, the blank
    symbol included. *)
Theorem Tape_read_write (sym : string) (t : Tape.t) :
  Tape.read (Tape.write sym t) = sym.
Proof.
  unfold Tape.read, Tape.write.
  destruct (bool_decide (sym = Tape.blank t)) eqn:Hb;
    destruct (bool_decide (Tape.content t !! Tape.head t = None)) eqn:Hn;
    cbn [andb].
  - apply bool_decide_eq_true in Hb, Hn.
    rewrite bool_decide_eq_false_2 by (rewrite Hn; by intros [? ?]).
    by rewrite Hn, Hb.
  - cbn [Tape.content Tape.head Tape.blank]. by rewrite lookup_insert_eq.
  - cbn [Tape.content Tape.head Tape.blank]. by rewrite lookup_insert_eq.
  - cbn [Tape.content Tape.head Tape.blank]. by rewrite lookup_insert_eq.
Qed.

(** X2. A write touches the cell under the head only: the head position,
    the blank symbol and every other cell stay as they were. *)
Theorem Tape_write_frame (sym : string) (t : Tape.t) :
  Tape.head (Tape.write sym t) = Tape.head t /\
  Tape.blank (Tape.write sym t) = Tape.blank t /\
  forall p : Z, p <> Tape.head t ->
    Tape.content (Tape.write sym t) !! p = Tape.content t !! p.
Proof.
  unfold Tape.write.
  destruct (bool_decide (sym = Tape.blank t)
            && bool_decide (Tape.content t !! Tape.head t = None)).
  - destruct (bool_decide (is_Some (Tape.content t !! Tape.head t)));
      cbn [Tape.content Tape.head Tape.blank]; repeat split; try done.
    intros p Hp. by rewrite lookup_delete_ne.
  - cbn [Tape.content Tape.head Tape.blank]. repeat split.
    intros p Hp. by rewrite lookup_insert_ne.
Qed.

(** X3. A write never removes a stored cell: the set of stored positions
    only grows, and the cell under the head is left unset exactly when the
    blank is written on a cell that was unset; a blank written over a stored
    cell is stored like any other symbol. *)
Theorem Tape_write_never_deletes (sym : string) (t : Tape.t) :
  dom (Tape.content t) ⊆ dom (Tape.content (Tape.write sym t)) /\
  (Tape.content (Tape.write sym t) !! Tape.head t = None <->
   sym = Tape.blank t /\ Tape.content t !! Tape.head t = None).
Proof.
  unfold Tape.write.
  destruct (bool_decide (sym = Tape.blank t)) eqn:Hb;
    destruct (bool_decide (Tape.content t !! Tape.head t = None)) eqn:Hn;
    cbn [andb].
  - apply bool_decide_eq_true in Hb, Hn.
    rewrite bool_decide_eq_false_2 by (rewrite Hn; by intros [? ?]).
    split; [done|]. tauto.
  - apply bool_decide_eq_false in Hn. cbn [Tape.content].
    split; [rewrite dom_insert; set_solver|].
    rewrite lookup_insert_eq. split; [done|tauto].
  - apply bool_decide_eq_false in Hb. cbn [Tape.content].
    split; [rewrite dom_insert; set_solver|].
    rewrite lookup_insert_eq. split; [done|tauto].
  - apply bool_decide_eq_false in Hb. cbn [Tape.content].
    split; [rewrite dom_insert; set_solver|].
    rewrite lookup_insert_eq. split; [done|tauto].
Qed.

(** X4. Moving right then left, or left then right, brings the tape back
    to where it was; a move never changes the stored cells, and shifts the
    head by one cell for ['R'] and ['L'] and not at all for any other
    direction string. *)
Theorem Tape_move_inverse (d : string) (t : Tape.t) :
  Tape.move "L" (Tape.move "R" t) = t /\
  Tape.move "R" (Tape.move "L" t) = t /\
  Tape.content (Tape.move d t) = Tape.content t /\
  Tape.blank (Tape.move d t) = Tape.blank t /\
  Tape.head (Tape.move d t) = Tape.head t + displacement d.
Proof.
  destruct t as [c b h]. unfold Tape.move, displacement.
  cbn [Tape.content Tape.head Tape.blank].
  rewrite !(bool_decide_eq_true_2 ("R"%string = "R"%string)) by done.
  rewrite !(bool_decide_eq_false_2 ("L"%string = "R"%string)) by done.
  rewrite !(bool_decide_eq_true_2 ("L"%string = "L"%string)) by done.
  cbn [Tape.content Tape.head Tape.blank].
  repeat split; try (f_equal; lia).
  - by repeat case_bool_decide.
  - by repeat case_bool_decide.
  - repeat case_bool_decide; cbn [Tape.head]; lia.
Qed.

(** On a tape freshly made from a string, the cell at position [i]
    reads as the [i]-th character of the string for [0 <= i < len], and as
    the blank symbol at every other position, negative ones included. *)
Lemma init_read_at (s blank : string) (i : Z) :
  Tape.read (head_at i (Tape.init s blank)) =
    if bool_decide (0 <= i < Z.of_nat (length (chars s)))
    then default blank (chars s !! Z.to_nat i)
    else blank.
Proof.
  unfold Tape.read, head_at. cbn [Tape.content Tape.head Tape.blank].
  rewrite (Tape_init_seeded s blank i).
  repeat case_bool_decide; try done; try lia.
  rewrite lookup_ge_None_2 by lia. done.
Qed.

(** ** TransitionFunction *)

(** X5. A lookup after [add] finds the triple just added under its own
    (state, symbol) key, so a second [add] for a key replaces the first, and
    finds what was there before under every other key; the table of a new
    object has no entry. *)
Theorem TransitionFunction_get_add (q s q' s' nxt wr dir : string)
    (tf : TransitionFunction.t) :
  TransitionFunction.get (Some q) s (TransitionFunction.add q' s' nxt wr dir tf) =
    (if bool_decide (q = q' /\ s = s') then Some (nxt, wr, dir)
     else TransitionFunction.get (Some q) s tf) /\
  TransitionFunction.get (Some q) s TransitionFunction.init = None.
Proof.
  unfold TransitionFunction.get, TransitionFunction.add, TransitionFunction.init.
  cbn [TransitionFunction.transitions]. split; [|apply lookup_empty].
  case_bool_decide as H.
  - destruct H as [-> ->]. apply lookup_insert_eq.
  - apply lookup_insert_ne. intros [= -> ->]. tauto.
Qed.

Lemma move_iter_right (k : nat) (t : Tape.t) :
  Nat.iter k (Tape.move "R") t = head_at (Tape.head t + Z.of_nat k) t.
Proof.
  induction k as [|k IH].
  - destruct t as [c b h]. unfold head_at. simpl. f_equal. lia.
  - rewrite Nat.iter_succ, IH. unfold Tape.move, head_at.
    rewrite bool_decide_eq_true_2 by done.
    cbn [Tape.content Tape.head Tape.blank]. f_equal. lia.
Qed.

Lemma move_iter_left (k : nat) (t : Tape.t) :
  Nat.iter k (Tape.move "L") t = head_at (Tape.head t - Z.of_nat k) t.
Proof.
  induction k as [|k IH].
  - destruct t as [c b h]. unfold head_at. simpl. f_equal. lia.
  - rewrite Nat.iter_succ, IH. unfold Tape.move, head_at.
    rewrite bool_decide_eq_false_2 by done.
    rewrite bool_decide_eq_true_2 by done.
    cbn [Tape.content Tape.head Tape.blank]. f_equal. lia.
Qed.

(** X6. Scanning a fresh tape: after [k] moves to the right the head reads
    the [k]-th character of the string, or the blank once past its end;
    after one or more moves to the left it reads the blank. *)
Theorem Tape_init_scan (s blank : string) (k : nat) :
  Tape.read (Nat.iter k (Tape.move "R") (Tape.init s blank)) =
    default blank (chars s !! k) /\
  Tape.read (Nat.iter (S k) (Tape.move "L") (Tape.init s blank)) = blank.
Proof.
  rewrite move_iter_right, move_iter_left, !init_read_at.
  cbn [Tape.head Tape.init]. split.
  - case_bool_decide as H.
    + by rewrite Z.add_0_l, Nat2Z.id.
    + rewrite lookup_ge_None_2 by lia. done.
  - rewrite bool_decide_eq_false_2 by lia. done.
Qed.

(** ** step *)

Lemma step_same_program (m : TuringMachine.t) :
  same_program m (snd (TuringMachine.step m)).
Proof.
  unfold TuringMachine.step, same_program.
  repeat match goal with
         | |- context [if ?b then _ else _] => destruct b
         | |- context [match ?x with _ => _ end] => destruct x
         end; simpl; repeat split.
Qed.

Lemma same_program_refl (m : TuringMachine.t) : same_program m m.
Proof. by repeat split. Qed.

Lemma same_program_trans (m1 m2 m3 : TuringMachine.t) :
  same_program m1 m2 -> same_program m2 m3 -> same_program m1 m3.
Proof.
  unfold same_program.
  intros (-> & -> & -> & -> & -> & -> & -> & ->) (-> & -> & -> & -> & -> & -> & -> & ->).
  by repeat split.
Qed.

(** X7. A step that finds an entry [(nxt, wr, dir)] for the current state
    and the symbol under the head returns ['continue']; afterwards the cell
    that was under the head reads [wr], every other cell is as before, the
    head has moved by the displacement of [dir], and the current state is
    [nxt]; nothing else of the machine changes. *)
Theorem step_continue_effect (m : TuringMachine.t) (tp : Tape.t)
    (q nxt wr dir : string) :
  TuringMachine.tape m = Some tp ->
  TuringMachine.current_state m = Some q ->
  q ∉ TuringMachine.accept_states m ->
  q ∉ TuringMachine.reject_states m ->
  TransitionFunction.get (Some q) (Tape.read tp)
    (TuringMachine.transition_function m) = Some (nxt, wr, dir) ->
  exists tp',
    TuringMachine.step m =
      (Return Continue,
       TuringMachine.set_current_state (Some nxt)
         (TuringMachine.set_tape (Some tp') m)) /\
    Tape.read (head_at (Tape.head tp) tp') = wr /\
    (forall p : Z, p <> Tape.head tp -> Tape.content tp' !! p = Tape.content tp !! p) /\
    Tape.head tp' = Tape.head tp + displacement dir /\
    Tape.blank tp' = Tape.blank tp.
Proof.
  intros Ht Hq Hacc Hrej Hget.
  exists (Tape.move dir (Tape.write wr tp)).
  destruct (move_effect dir (Tape.write wr tp)) as (_ & _ & Hc & Hb & Hh).
  destruct (write_frame wr tp) as (Hwh & Hwb & Hwc).
  split.
  - unfold TuringMachine.step.
    rewrite (in_accept_states_false m q Hq Hacc).
    rewrite (in_reject_states_false m q Hq Hrej).
    by rewrite Ht, Hq, Hget.
  - repeat split.
    + pose proof (write_then_read wr tp) as Hrw.
      unfold Tape.read, head_at in *. cbn [Tape.content Tape.head Tape.blank].
      by rewrite Hc, Hb, <- Hwh.
    + intros p Hp. rewrite Hc. by apply Hwc.
    + by rewrite Hh, Hwh.
    + by rewrite Hb, Hwb.
Qed.

Lemma step_continue_effect_witness :
  exists tp',
    TuringMachine.step on1n_loaded_0011 =
      (Return Continue,
       TuringMachine.set_current_state (Some "q1"%string)
         (TuringMachine.set_tape (Some tp') on1n_loaded_0011)) /\
    Tape.read (head_at 0 tp') = "X"%string /\ Tape.head tp' = 1.
Proof.
  destruct (step_continue_effect on1n_loaded_0011 (Tape.init "0011" "_")
              "q0" "q1" "X" "R") as (tp' & E & Hr & _ & Hh & _).
  - vm_compute. reflexivity.
  - vm_compute. reflexivity.
  - apply (bool_decide_unpack _). vm_compute. exact I.
  - apply (bool_decide_unpack _). vm_compute. exact I.
  - vm_compute. reflexivity.
  - exists tp'. split; [exact E|]. split; [exact Hr|exact Hh].
Defined.

(** X8. In a state of the reject set, [step] halts without touching the
    machine; the accept test comes first, so a state listed in both sets
    gives ['accept'], and any other state of the reject set gives
    ['reject']. *)
Theorem step_reject_state (m : TuringMachine.t) (q : string) :
  TuringMachine.current_state m = Some q ->
  q ∈ TuringMachine.reject_states m ->
  TuringMachine.step m =
    (Return (if bool_decide (q ∈ TuringMachine.accept_states m)
             then Accept else Reject), m).
Proof.
  intros Hq Hrej.
  unfold TuringMachine.step, TuringMachine.in_accept_states,
    TuringMachine.in_reject_states.
  rewrite Hq. case_bool_decide; [done|].
  by rewrite bool_decide_eq_true_2.
Qed.

Lemma step_reject_state_witness :
  TuringMachine.step on1n_rejected_001 = (Return Reject, on1n_rejected_001).
Proof.
  apply (step_reject_state on1n_rejected_001 "q_reject").
  - vm_compute. reflexivity.
  - apply (bool_decide_unpack _). vm_compute. exact I.
Defined.

(** X9. [step] returns ['accept'] exactly when the current state is in
    the accept set, with or without a tape. *)
Theorem step_accept_iff (m : TuringMachine.t) :
  fst (TuringMachine.step m) = Return Accept <->
  exists q, TuringMachine.current_state m = Some q /\
            q ∈ TuringMachine.accept_states m.
Proof.
  split.
  - unfold TuringMachine.step, TuringMachine.in_accept_states.
    destruct (TuringMachine.current_state m) as [q|] eqn:Hq.
    + case_bool_decide as Hacc; [by eauto|].
      repeat match goal with
             | |- context [if ?b then _ else _] => destruct b
             | |- context [match ?x with _ => _ end] => destruct x
             end; simpl; discriminate.
    + repeat match goal with
             | |- context [if ?b then _ else _] => destruct b
             | |- context [match ?x with _ => _ end] => destruct x
             end; simpl; discriminate.
  - intros (q & Hq & Hacc). unfold TuringMachine.step.
    by rewrite (in_accept_states_true m q Hq Hacc).
Qed.

(** X10. Halting is stable: once [step] has returned ['accept'] or
    ['reject'], every further call returns the same status and leaves the
    machine as it is. *)
Theorem step_halt_stable (m m' : TuringMachine.t) (r : status) (k : nat) :
  TuringMachine.step m = (Return r, m') ->
  r <> Continue ->
  m' = m /\
  Nat.iter k (fun res => TuringMachine.step (snd res)) (TuringMachine.step m)
    = (Return r, m).
Proof.
  intros Hstep Hr.
  assert (m' = m) as -> by (apply (step_halt_frame _ _ _ Hstep); congruence).
  split; [done|].
  induction k as [|k IH]; [done|].
  rewrite Nat.iter_succ, IH. done.
Qed.

Lemma step_halt_stable_witness :
  Nat.iter 5 (fun res => TuringMachine.step (snd res))
    (TuringMachine.step no_rule_machine) = (Return Reject, no_rule_machine).
Proof.
  apply (step_halt_stable no_rule_machine no_rule_machine Reject 5).
  - vm_compute. reflexivity.
  - discriminate.
Defined.

(** ** run *)

(** The four ways an iteration can go, for every fuel, budget, step counter
    and history at once: which way is taken depends on the machine and the
    console only. *)
Lemma run_loop_step_cases (sbs : bool) (m : TuringMachine.t) (c : console)
    (l : list status) :
  (TuringMachine.tape m = None /\
   forall fuel ms steps hist, steps < ms ->
     run_loop sbs (S fuel) ms steps hist (mk_world m c l) =
       (Raise AttributeError, mk_world m c l))
  \/ (exists tp,
        TuringMachine.tape m = Some tp /\ sbs = true /\ stdin c = [] /\
        forall fuel ms steps hist, steps < ms ->
          run_loop sbs (S fuel) ms steps hist (mk_world m c l) =
            (Raise EOFError,
             mk_world m
               {| stdout := stdout c ++ trace_lines steps [config_of m tp];
                  stdin := [] |} l))
  \/ (exists tp r,
        TuringMachine.tape m = Some tp /\ (sbs = true -> stdin c <> []) /\
        TuringMachine.step m = (Return r, m) /\ r <> Continue /\ r <> Loop /\
        forall fuel ms steps hist, steps < ms ->
          run_loop sbs (S fuel) ms steps hist (mk_world m c l) =
            (Return (r, hist ++ [config_of m tp; config_of m tp]),
             mk_world m (console_after_trace sbs steps (config_of m tp) c) (l ++ [r])))
  \/ (exists tp m' tp',
        TuringMachine.tape m = Some tp /\ (sbs = true -> stdin c <> []) /\
        TuringMachine.step m = (Return Continue, m') /\
        TuringMachine.tape m' = Some tp' /\
        forall fuel ms steps hist, steps < ms ->
          run_loop sbs (S fuel) ms steps hist (mk_world m c l) =
            run_loop sbs fuel ms (steps + 1) (hist ++ [config_of m tp])
              (mk_world m' (console_after_trace sbs steps (config_of m tp) c)
                 (l ++ [Continue]))).
Proof.
  destruct (TuringMachine.tape m) as [tp|] eqn:Ht.
  2: { left. split; [done|]. intros. by apply run_loop_no_tape. }
  right.
  destruct (decide (sbs = true /\ stdin c = [])) as [[-> Hc]|Hio].
  { left. exists tp. repeat split; try done. intros.
    by rewrite (run_loop_eof fuel ms steps hist m tp c l). }
  right.
  assert (Hin : sbs = true -> stdin c <> []) by (intros -> Hc; by apply Hio).
  destruct (step_loaded m tp Ht) as (r & m' & tp' & Hstep & Ht').
  destruct (decide (r = Continue)) as [->|Hr].
  - right. exists tp, m', tp'. repeat split; try done.
    intros fuel ms steps hist Hlt.
    rewrite (run_loop_iter sbs fuel ms steps hist m m' tp c l Continue) by done.
    cbv zeta. by rewrite bool_decide_eq_false_2 by tauto.
  - left. exists tp, r.
    assert (m' = m) as -> by (apply (step_halt_frame _ _ _ Hstep); congruence).
    repeat split; try done.
    + intros ->. by apply (step_never_loop m m).
    + intros fuel ms steps hist Hlt.
      rewrite (run_loop_iter sbs fuel ms steps hist m m tp c l r) by done.
      cbv zeta. by rewrite bool_decide_eq_true_2.
Qed.

(** Any two amounts of fuel that cover the remaining budget give the same
    run. *)
Lemma run_loop_fuel_irrelevant (sbs : bool) (fuel : nat) :
  forall (fuel' : nat) (ms steps : Z) (hist : list config) (w : world),
    (Z.to_nat (ms - steps) <= fuel)%nat ->
    (Z.to_nat (ms - steps) <= fuel')%nat ->
    run_loop sbs fuel ms steps hist w = run_loop sbs fuel' ms steps hist w.
Proof.
  induction fuel as [|fuel IH]; intros fuel' ms steps hist [m c l] Hf Hf'.
  - by rewrite !run_loop_stop by lia.
  - destruct (decide (steps < ms)) as [Hlt|Hge]; [|by rewrite !run_loop_stop].
    destruct fuel' as [|fuel']; [lia|].
    destruct (run_loop_step_cases sbs m c l)
      as [[_ E]|[(tp & _ & _ & _ & E)|[(tp & r & _ & _ & _ & _ & _ & E)
         |(tp & m' & tp' & _ & _ & _ & _ & E)]]]; rewrite !E by done; try done.
    apply IH; lia.
Qed.

(** Without step-by-step mode the loop sees its budget and its step counter
    only through their difference, and the history it is handed only as a
    prefix of the history it returns. *)
Lemma run_loop_quiet_shift (fuel : nat) :
  forall (ms steps ms' steps' : Z) (hist h0 : list config) (w : world),
    ms - steps = ms' - steps' ->
    run_loop false fuel ms' steps' (h0 ++ hist) w =
      prepend_history h0 (run_loop false fuel ms steps hist w).
Proof.
  induction fuel as [|fuel IH]; intros ms steps ms' steps' hist h0 [m c l] Hd.
  - destruct (decide (steps < ms)) as [Hlt|Hge].
    + by rewrite !run_loop_out_of_fuel by lia.
    + by rewrite !run_loop_stop by lia.
  - destruct (decide (steps < ms)) as [Hlt|Hge]; [|by rewrite !run_loop_stop by lia].
    destruct (run_loop_step_cases false m c l)
      as [[_ E]|[(tp & _ & ? & _)|[(tp & r & _ & _ & _ & _ & _ & E)
         |(tp & m' & tp' & _ & _ & _ & _ & E)]]]; [| done | |];
      rewrite !E by lia.
    + done.
    + simpl. by rewrite <- app_assoc.
    + rewrite <- app_assoc. apply IH. lia.
Qed.

Lemma run_loop_same_program (sbs : bool) (fuel : nat) :
  forall (ms steps : Z) (hist : list config) (w : world),
    same_program (self w) (self (snd (run_loop sbs fuel ms steps hist w))).
Proof.
  induction fuel as [|fuel IH]; intros ms steps hist [m c l].
  - destruct (decide (steps < ms)) as [Hlt|Hge].
    + rewrite run_loop_out_of_fuel by done. apply same_program_refl.
    + rewrite run_loop_stop by done. apply same_program_refl.
  - destruct (decide (steps < ms)) as [Hlt|Hge].
    2: { rewrite run_loop_stop by done. apply same_program_refl. }
    destruct (run_loop_step_cases sbs m c l)
      as [[_ E]|[(tp & _ & _ & _ & E)|[(tp & r & _ & _ & _ & _ & _ & E)
         |(tp & m' & tp' & _ & _ & Hstep & _ & E)]]]; rewrite E by done;
      try apply same_program_refl.
    eapply same_program_trans; [|apply IH]. simpl.
    pose proof (step_same_program m) as Hs. by rewrite Hstep in Hs.
Qed.

(** A loop that returns ['accept'] or ['reject'] leaves a machine on which
    [step] gives that status again, and whose configuration is the last
    entry of the history. *)
Lemma run_loop_halted (sbs : bool) (fuel : nat) :
  forall (ms steps : Z) (hist : list config) (w w' : world) (r : status)
         (h : list config),
    run_loop sbs fuel ms steps hist w = (Return (r, h), w') ->
    r <> Loop ->
    exists tp,
      TuringMachine.tape (self w') = Some tp /\
      TuringMachine.step (self w') = (Return r, self w') /\
      r <> Continue /\
      last h = Some (config_of (self w') tp).
Proof.
  induction fuel as [|fuel IH]; intros ms steps hist [m c l] w' r h Hrun Hr.
  - destruct (decide (steps < ms)) as [Hlt|Hge].
    + by rewrite run_loop_out_of_fuel in Hrun.
    + rewrite run_loop_stop in Hrun by done. congruence.
  - destruct (decide (steps < ms)) as [Hlt|Hge].
    2: { rewrite run_loop_stop in Hrun by done. congruence. }
    destruct (run_loop_step_cases sbs m c l)
      as [[_ E]|[(tp & _ & _ & _ & E)|[(tp & r0 & Ht & _ & Hstep & Hr0 & _ & E)
         |(tp & m' & tp' & _ & _ & _ & _ & E)]]]; rewrite E in Hrun by done;
      try discriminate.
    + inversion Hrun; subst. exists tp. cbn [self]. repeat split; try done.
      replace (hist ++ [config_of m tp; config_of m tp])
        with ((hist ++ [config_of m tp]) ++ [config_of m tp])
        by (by rewrite <- app_assoc).
      apply last_snoc.
    + by apply (IH _ _ _ _ _ _ _ Hrun).
Qed.

(** X11. When [run] returns ['accept'] or ['reject'], the machine is left
    halted: it still has its tape, a further [step] gives the same status
    without changing anything, and the last entry of the history is the
    configuration of the machine as [run] leaves it. *)
Theorem run_leaves_halted (w w' : world) (max_steps : Z) (step_by_step : bool)
    (r : status) (h : list config) :
  run max_steps step_by_step w = (Return (r, h), w') ->
  r <> Loop ->
  exists tp,
    TuringMachine.tape (self w') = Some tp /\
    TuringMachine.step (self w') = (Return r, self w') /\
    last h = Some (config_of (self w') tp).
Proof.
  unfold run. rewrite run_fuel_unfold. intros Hrun Hr.
  destruct (TuringMachine.tape (self w)); [|discriminate].
  destruct (run_loop_halted _ _ _ _ _ _ _ _ _ Hrun Hr) as (tp & Ht & Hs & _ & Hl).
  by exists tp.
Qed.

Lemma run_leaves_halted_witness :
  exists (r : status) (h : list config) (w' : world) (tp : Tape.t),
    run 1000 false (world_of on1n_loaded_0011 []) = (Return (r, h), w') /\
    TuringMachine.tape (self w') = Some tp /\
    TuringMachine.step (self w') = (Return r, self w') /\
    last h = Some (config_of (self w') tp).
Proof.
  assert (Hs : verdict_of (fst (run 1000 false (world_of on1n_loaded_0011 [])))
               = Return Accept) by (vm_compute; reflexivity).
  destruct (run 1000 false (world_of on1n_loaded_0011 [])) as [[[r h]|e|] w'] eqn:E;
    simpl in Hs; try discriminate Hs.
  destruct (run_leaves_halted (world_of on1n_loaded_0011 []) w' 1000 false r h E)
    as (tp & H1 & H2 & H3).
  - intros ->. discriminate Hs.
  - exists r, h, w', tp. repeat split; assumption.
Defined.

(** X12. With a budget of zero or less, [run] on a loaded machine returns
    ['loop'] with an empty history at once: [step] is not called, nothing is
    printed or read, and the machine is untouched. *)
Theorem run_no_budget (w : world) (tp : Tape.t) (max_steps : Z)
    (step_by_step : bool) :
  TuringMachine.tape (self w) = Some tp ->
  max_steps <= 0 ->
  run max_steps step_by_step w = (Return (Loop, []), w).
Proof.
  intros Ht Hms. unfold run. rewrite run_fuel_unfold, Ht.
  apply run_loop_stop. lia.
Qed.

Lemma run_no_budget_witness :
  run (-1) true (world_of on1n_loaded_0011 []) =
    (Return (Loop, []), world_of on1n_loaded_0011 []).
Proof.
  apply (run_no_budget (world_of on1n_loaded_0011 []) (Tape.init "0011" "_") (-1) true).
  - vm_compute. reflexivity.
  - lia.
Defined.

(** X13. Running again after a halt: when [run] has returned ['accept'] or
    ['reject'], a further [run] with any positive budget returns the same
    status after a single call of [step], with a history made of the halting
    configuration twice, and leaves the machine as it was. *)
Theorem run_again_after_halt (w w' : world) (max_steps max_steps' : Z)
    (step_by_step : bool) (r : status) (h : list config) :
  run max_steps step_by_step w = (Return (r, h), w') ->
  r <> Loop ->
  0 < max_steps' ->
  exists cfg,
    last h = Some cfg /\
    run max_steps' false w' =
      (Return (r, [cfg; cfg]),
       mk_world (self w') (io w') (step_calls w' ++ [r])).
Proof.
  unfold run at 1. rewrite run_fuel_unfold. intros Hrun Hr Hms.
  destruct (TuringMachine.tape (self w)); [|discriminate].
  destruct (run_loop_halted _ _ _ _ _ _ _ _ _ Hrun Hr) as (tp & Ht & Hs & Hc & Hl).
  exists (config_of (self w') tp). split; [done|].
  unfold run. rewrite run_fuel_unfold, Ht.
  destruct (Z.to_nat max_steps') as [|fuel] eqn:Hn; [lia|].
  destruct w' as [m' c' l']. cbn [self io step_calls] in *.
  rewrite (run_loop_iter false fuel max_steps' 0 [] m' m' tp c' l' r) by done.
  cbv zeta. by rewrite bool_decide_eq_true_2.
Qed.

Lemma run_again_after_halt_witness :
  exists (r : status) (h : list config) (w' : world) (cfg : config),
    run 1000 false (world_of on1n_loaded_0011 []) = (Return (r, h), w') /\
    last h = Some cfg /\
    run 1 false w' =
      (Return (r, [cfg; cfg]), mk_world (self w') (io w') (step_calls w' ++ [r])).
Proof.
  assert (Hs : verdict_of (fst (run 1000 false (world_of on1n_loaded_0011 [])))
               = Return Accept) by (vm_compute; reflexivity).
  destruct (run 1000 false (world_of on1n_loaded_0011 [])) as [[[r h]|e|] w'] eqn:E;
    simpl in Hs; try discriminate Hs.
  destruct (run_again_after_halt (world_of on1n_loaded_0011 []) w' 1000 1 false r h E)
    as (cfg & H1 & H2).
  - intros ->. discriminate Hs.
  - lia.
  - exists r, h, w', cfg. repeat split; assumption.
Defined.

Lemma run_loop_resume (fuel : nat) :
  forall (fuel' : nat) (ms b steps : Z) (hist h1 : list config) (w w1 : world),
    run_loop false fuel ms steps hist w = (Return (Loop, h1), w1) ->
    steps <= ms -> 0 <= b ->
    (Z.to_nat (ms - steps) <= fuel)%nat ->
    (Z.to_nat (ms + b - steps) <= fuel')%nat ->
    run_loop false fuel' (ms + b) steps hist w =
      run_loop false (Z.to_nat b) (ms + b) ms h1 w1.
Proof.
  induction fuel as [|fuel IH];
    intros fuel' ms b steps hist h1 [m c l] w1 Hrun Hle Hb Hf Hf'.
  - rewrite run_loop_stop in Hrun by lia. inversion Hrun; subst.
    assert (steps = ms) as -> by lia.
    apply run_loop_fuel_irrelevant; lia.
  - destruct (decide (steps < ms)) as [Hlt|Hge].
    2: { rewrite run_loop_stop in Hrun by lia. inversion Hrun; subst.
         assert (steps = ms) as -> by lia.
         apply run_loop_fuel_irrelevant; lia. }
    destruct fuel' as [|fuel']; [lia|].
    destruct (run_loop_step_cases false m c l)
      as [[_ E]|[(tp & _ & ? & _)|[(tp & r & _ & _ & _ & _ & Hr & E)
         |(tp & m' & tp' & _ & _ & _ & _ & E)]]]; [| done | |];
      rewrite E in Hrun by done; try discriminate.
    + inversion Hrun; subst. done.
    + rewrite E by lia. apply (IH _ _ _ _ _ _ _ _ Hrun); lia.
Qed.

(** X14. Runs compose: without step-by-step mode, when a run with budget
    [a] returns ['loop'] and a second run with budget [b] on the machine it
    left returns some status, a single run with budget [a + b] from the
    start returns that status, the two histories one after the other, and
    the same final machine and log of [step] calls. *)
Theorem run_resume (w w1 w2 : world) (a b : Z) (r : status)
    (h1 h2 : list config) :
  0 <= a -> 0 <= b ->
  run a false w = (Return (Loop, h1), w1) ->
  run b false w1 = (Return (r, h2), w2) ->
  run (a + b) false w = (Return (r, h1 ++ h2), w2).
Proof.
  unfold run. rewrite !run_fuel_unfold. intros Ha Hb H1 H2.
  destruct (TuringMachine.tape (self w)); [|discriminate].
  destruct (TuringMachine.tape (self w1)); [|discriminate].
  rewrite (run_loop_resume _ (Z.to_nat (a + b)) a b 0 [] h1 w w1 H1) by lia.
  rewrite <- (app_nil_r h1).
  rewrite (run_loop_quiet_shift (Z.to_nat b) b 0 (a + b) a [] h1 w1) by lia.
  rewrite H2. simpl. by rewrite app_nil_r.
Qed.

Lemma run_resume_witness :
  exists (h1 h2 : list config) (w1 w2 : world),
    run 5 false (world_of on1n_loaded_0011 []) = (Return (Loop, h1), w1) /\
    run 1000 false w1 = (Return (Accept, h2), w2) /\
    run 1005 false (world_of on1n_loaded_0011 []) = (Return (Accept, h1 ++ h2), w2).
Proof.
  assert (Hs1 : verdict_of (fst (run 5 false (world_of on1n_loaded_0011 [])))
                = Return Loop) by (vm_compute; reflexivity).
  destruct (run 5 false (world_of on1n_loaded_0011 [])) as [[[r1 h1]|e|] w1] eqn:E1;
    simpl in Hs1; try discriminate Hs1.
  assert (Hs2 : verdict_of (fst (run 1000 false w1)) = Return Accept).
  { replace w1 with (snd (run 5 false (world_of on1n_loaded_0011 [])))
      by (by rewrite E1).
    vm_compute. reflexivity. }
  destruct (run 1000 false w1) as [[[r2 h2]|e|] w2] eqn:E2;
    simpl in Hs2; try discriminate Hs2.
  assert (r1 = Loop) as -> by congruence.
  assert (r2 = Accept) as -> by congruence.
  exists h1, h2, w1, w2. split; [reflexivity|]. split; [exact E2|].
  apply (run_resume (world_of on1n_loaded_0011 []) w1 w2 5 1000 Accept h1 h2);
    [lia | lia | exact E1 | exact E2].
Defined.

Lemma load_input_same_program (s : string) (m m' m1 : TuringMachine.t) :
  same_program m m' ->
  TuringMachine.load_input s m = (Return tt, m1) ->
  TuringMachine.load_input s m' = (Return tt, m1).
Proof.
  intros (H1 & H2 & H3 & H4 & H5 & H6 & H7 & H8).
  rewrite !load_input_outcome. unfold TuringMachine.invalid_input.
  rewrite H2, H7, H4.
  destruct (bool_decide _); [done|].
  intros [= <-]. f_equal.
  destruct m, m'; simpl in *; by subst.
Qed.

(** X15. [load_input] resets the execution completely: after any call of
    [step] or [run], loading a string that was valid before gives exactly
    the machine state that loading it before the call would have given. *)
Theorem load_input_resets (w : world) (max_steps : Z) (step_by_step : bool)
    (s : string) (m1 : TuringMachine.t) :
  TuringMachine.load_input s (self w) = (Return tt, m1) ->
  TuringMachine.load_input s (self (snd (run max_steps step_by_step w)))
    = (Return tt, m1) /\
  TuringMachine.load_input s (snd (TuringMachine.step (self w))) = (Return tt, m1).
Proof.
  intros Hload. split.
  - apply (load_input_same_program s (self w)); [|done].
    unfold run. rewrite run_fuel_unfold.
    destruct (TuringMachine.tape (self w));
      [apply run_loop_same_program|apply same_program_refl].
  - apply (load_input_same_program s (self w)); [|done].
    apply step_same_program.
Qed.

Lemma load_input_resets_witness :
  TuringMachine.load_input "0011" (self (snd (run 1000 false on1n_world_01)))
    = (Return tt, on1n_loaded_0011).
Proof.
  destruct (load_input_resets on1n_world_01 1000 false "0011" on1n_loaded_0011)
    as [H _].
  - vm_compute. reflexivity.
  - exact H.
Defined.

Lemma drop_tail {A : Type} (n : nat) (l : list A) :
  drop n (tail l) = drop (S n) l.
Proof. destruct l; [by destruct n|done]. Qed.

Lemma run_loop_trace_output (fuel : nat) :
  forall (ms steps : Z) (hist : list config) (m : TuringMachine.t) (c : console)
         (l : list status) (r : status) (h : list config) (w' : world),
    run_loop true fuel ms steps hist (mk_world m c l) = (Return (r, h), w') ->
    exists hpre tl,
      h = hist ++ hpre ++ tl /\
      (r = Loop /\ tl = [] \/ r <> Loop /\ length tl = 1%nat) /\
      stdout (io w') = stdout c ++ trace_lines steps hpre /\
      stdin (io w') = drop (length hpre) (stdin c) /\
      length (step_calls w') = (length l + length hpre)%nat.
Proof.
  induction fuel as [|fuel IH]; intros ms steps hist m c l r h w' Hrun.
  - destruct (decide (steps < ms)) as [Hlt|Hge].
    + by rewrite run_loop_out_of_fuel in Hrun.
    + rewrite run_loop_stop in Hrun by done. inversion Hrun; subst.
      exists [], []. simpl. rewrite !app_nil_r. repeat split; auto with lia.
  - destruct (decide (steps < ms)) as [Hlt|Hge].
    2: { rewrite run_loop_stop in Hrun by done. inversion Hrun; subst.
         exists [], []. simpl. rewrite !app_nil_r. repeat split; auto with lia. }
    destruct (run_loop_step_cases true m c l)
      as [[_ E]|[(tp & _ & _ & _ & E)|[(tp & r0 & _ & _ & _ & _ & Hr0 & E)
         |(tp & m' & tp' & _ & _ & _ & _ & E)]]]; rewrite E in Hrun by done;
      try discriminate.
    + inversion Hrun; subst. exists [config_of m tp], [config_of m tp].
      cbn [console_after_trace io stdout stdin step_calls trace_lines length].
      repeat split; auto.
      rewrite length_app. simpl. lia.
    + destruct (IH _ _ _ _ _ _ _ _ _ Hrun) as (hpre & tl & -> & Htl & Hout & Hin & Hlen).
      exists (config_of m tp :: hpre), tl.
      cbn [console_after_trace io stdout stdin step_calls trace_lines length] in *.
      repeat split; auto.
      * by rewrite <- !app_assoc.
      * rewrite Hout, <- app_assoc. done.
      * rewrite Hin. apply drop_tail.
      * rewrite Hlen, length_app. simpl. lia.
Qed.

(** X16. What step-by-step mode prints: when a run in that mode returns,
    standard output has gained, for each configuration recorded at the start
    of an iteration, its [Paso] line, numbered from 1 upwards, followed by
    the prompt; one line of standard input was read per iteration, and
    [step] was called once per iteration.  The configurations recorded at
    the start of an iteration are the whole history for ['loop'] and the
    history without its last entry otherwise. *)
Theorem run_trace_output (w w' : world) (max_steps : Z) (r : status)
    (h : list config) :
  run max_steps true w = (Return (r, h), w') ->
  let shown := if bool_decide (r = Loop) then h else removelast h in
  stdout (io w') = stdout (io w) ++ trace_lines 0 shown /\
  stdin (io w') = drop (length shown) (stdin (io w)) /\
  length (step_calls w') = (length (step_calls w) + length shown)%nat.
Proof.
  unfold run. rewrite run_fuel_unfold. intros Hrun.
  destruct (TuringMachine.tape (self w)); [|discriminate].
  destruct w as [m c l].
  destruct (run_loop_trace_output _ _ _ _ _ _ _ _ _ _ Hrun)
    as (hpre & tl & Hh & Htl & Hout & Hin & Hlen).
  simpl in Hh. cbn [io step_calls].
  assert (Hs : (if bool_decide (r = Loop) then h else removelast h) = hpre).
  { destruct Htl as [[-> ->]|[Hr Hl]].
    - rewrite bool_decide_eq_true_2 by done. by rewrite Hh, app_nil_r.
    - rewrite bool_decide_eq_false_2 by done.
      destruct tl as [|x [|? ?]]; try discriminate Hl.
      rewrite Hh. apply removelast_last. }
  cbv zeta. rewrite Hs. done.
Qed.

Lemma run_trace_output_witness :
  exists (r : status) (h : list config) (w' : world),
    run 2 true (world_of on1n_loaded_0011 [""; ""; ""]%string) = (Return (r, h), w') /\
    stdout (io w') =
      trace_lines 0 (if bool_decide (r = Loop) then h else removelast h) /\
    stdin (io w') =
      drop (length (if bool_decide (r = Loop) then h else removelast h))
        [""; ""; ""]%string.
Proof.
  assert (Hs : verdict_of (fst (run 2 true (world_of on1n_loaded_0011 [""; ""; ""]%string)))
               = Return Loop) by (vm_compute; reflexivity).
  destruct (run 2 true (world_of on1n_loaded_0011 [""; ""; ""]%string))
    as [[[r h]|e|] w'] eqn:E; simpl in Hs; try discriminate Hs.
  exists r, h, w'. split; [reflexivity|].
  destruct (run_trace_output (world_of on1n_loaded_0011 [""; ""; ""]%string) w' 2 r h E)
    as (H1 & H2 & _).
  split; [exact H1|exact H2].
Defined.

Lemma visited_snoc (k : nat) :
  forall m : TuringMachine.t, visited (S k) m = visited k m ++ [after_steps k m].
Proof.
  induction k as [|k IH]; intros m; [done|].
  change (visited (S (S k)) m) with (m :: visited (S k) (snd (TuringMachine.step m))).
  rewrite IH. done.
Qed.

Lemma run_loop_reaches_halt (k : nat) :
  forall (fuel : nat) (ms steps : Z) (hist : list config) (m : TuringMachine.t)
         (tp : Tape.t) (c : console) (l : list status) (r : status),
    TuringMachine.tape m = Some tp ->
    Forall (fun mk => fst (TuringMachine.step mk) = Return Continue) (visited k m) ->
    fst (TuringMachine.step (after_steps k m)) = Return r ->
    r <> Continue ->
    (k < Z.to_nat (ms - steps))%nat -> (k < fuel)%nat ->
    exists h,
      run_loop false fuel ms steps hist (mk_world m c l) =
        (Return (r, hist ++ h),
         mk_world (after_steps k m) c (l ++ replicate k Continue ++ [r])) /\
      Forall2 (fun mk cfg => fst (TuringMachine.get_config mk) = Return cfg)
              (visited (S k) m ++ [after_steps k m]) h.
Proof.
  induction k as [|k IH];
    intros fuel ms steps hist m tp c l r Ht Hall Hlast Hr Hms Hfuel;
    (destruct fuel as [|fuel]; [lia|]);
    destruct (run_loop_step_cases false m c l)
      as [[Ht' _]|[(tp0 & _ & ? & _)|[(tp0 & r0 & Ht0 & _ & Hstep & Hr0 & _ & E)
         |(tp0 & m' & tp' & Ht0 & _ & Hstep & Ht' & E)]]]; try congruence;
    assert (tp0 = tp) as -> by congruence.
  - cbn [after_steps] in *. rewrite Hstep in Hlast. simpl in Hlast.
    assert (r0 = r) as -> by congruence.
    exists [config_of m tp; config_of m tp]. rewrite E by lia. split; [done|].
    cbn [visited app after_steps].
    repeat (constructor; [by rewrite (get_config_loaded _ _ Ht)|]). constructor.
  - cbn [after_steps] in Hlast. rewrite Hstep in Hlast. simpl in Hlast. congruence.
  - cbn [visited] in Hall. apply Forall_cons in Hall as [Hm _].
    rewrite Hstep in Hm. simpl in Hm. congruence.
  - cbn [visited after_steps] in Hall, Hlast |- *.
    apply Forall_cons in Hall as [_ Hall].
    rewrite Hstep in Hall, Hlast |- *. cbn [snd] in Hall, Hlast |- *.
    destruct (IH fuel ms (steps + 1) (hist ++ [config_of m tp]) m' tp' c
                (l ++ [Continue]) r Ht' Hall Hlast Hr) as (h & Erun & Hh); [lia|lia|].
    exists (config_of m tp :: h). rewrite E by lia.
    cbn [console_after_trace]. rewrite Erun.
    split.
    + rewrite <- !app_assoc. done.
    + cbn [app]. constructor; [by rewrite (get_config_loaded _ _ Ht)|].
      exact Hh.
Qed.

(** X17. [run] is [step] iterated: without step-by-step mode, if [step]
    continues from the first [k] machine states and returns a halting status
    from the next one, then any budget above [k] makes [run] return that
    status, leave the machine in that halting state after [k + 1] calls of
    [step], and record the configurations of the [k + 1] states met,
    followed by the halting configuration once more. *)
Theorem run_is_iterated_step (m : TuringMachine.t) (tp : Tape.t) (c : console)
    (l : list status) (k : nat) (r : status) (max_steps : Z) :
  TuringMachine.tape m = Some tp ->
  Forall (fun mk => fst (TuringMachine.step mk) = Return Continue) (visited k m) ->
  fst (TuringMachine.step (after_steps k m)) = Return r ->
  r <> Continue ->
  Z.of_nat k < max_steps ->
  exists h,
    run max_steps false (mk_world m c l) =
      (Return (r, h),
       mk_world (after_steps k m) c (l ++ replicate k Continue ++ [r])) /\
    Forall2 (fun mk cfg => fst (TuringMachine.get_config mk) = Return cfg)
            (visited (S k) m ++ [after_steps k m]) h.
Proof.
  intros Ht Hall Hlast Hr Hms.
  unfold run. rewrite run_fuel_unfold. cbn [self]. rewrite Ht.
  destruct (run_loop_reaches_halt k (Z.to_nat max_steps) max_steps 0 [] m tp c l r)
    as (h & E & Hh); try done; try lia.
  by exists h.
Qed.

Lemma run_is_iterated_step_witness :
  exists h,
    run 1000 false (mk_world on1n_loaded_0011 (mk_console [] []) []) =
      (Return (Accept, h),
       mk_world (after_steps 19 on1n_loaded_0011) (mk_console [] [])
         ([] ++ replicate 19 Continue ++ [Accept])) /\
    Forall2 (fun mk cfg => fst (TuringMachine.get_config mk) = Return cfg)
            (visited 20 on1n_loaded_0011 ++ [after_steps 19 on1n_loaded_0011]) h.
Proof.
  apply (run_is_iterated_step on1n_loaded_0011 (Tape.init "0011" "_")
           (mk_console [] []) [] 19 Accept 1000).
  - vm_compute. reflexivity.
  - cbn [visited].
    repeat (constructor; [vm_compute; reflexivity|]). constructor.
  - vm_compute. reflexivity.
  - discriminate.
  - lia.
Defined.

(** ** Errors of step and run *)

(** X18. [step] fails in one situation only: the machine has no tape and
    its current state is in neither the accept set nor the reject set; the
    failure is the attribute error, and the machine is left as it was.  With
    a tape, or in an accepting or rejecting state, [step] returns a
    status. *)
Theorem step_raises_iff (m : TuringMachine.t) (e : exception) :
  (fst (TuringMachine.step m) = Raise e <->
   e = AttributeError /\ TuringMachine.tape m = None /\
   TuringMachine.in_accept_states m = false /\
   TuringMachine.in_reject_states m = false) /\
  (fst (TuringMachine.step m) = Raise e <->
   TuringMachine.step m = (Raise e, m)).
Proof.
  assert (Hiff : fst (TuringMachine.step m) = Raise e <->
                 e = AttributeError /\ TuringMachine.tape m = None /\
                 TuringMachine.in_accept_states m = false /\
                 TuringMachine.in_reject_states m = false).
  { unfold TuringMachine.step.
    destruct (TuringMachine.in_accept_states m); simpl.
    { split; [discriminate|]. by intros (_ & _ & ? & _). }
    destruct (TuringMachine.in_reject_states m); simpl.
    { split; [discriminate|]. by intros (_ & _ & _ & ?). }
    destruct (TuringMachine.tape m) as [tp|]; simpl.
    - split; [|by intros (_ & ? & _)].
      destruct (TransitionFunction.get _ _ _) as [[[? ?] ?]|]; discriminate.
    - split; [by intros [= <-]|]. by intros (-> & _). }
  split; [exact Hiff|]. split.
  - intros H. destruct (TuringMachine.step m) as [o m'] eqn:Hstep.
    simpl in H. subst o. f_equal.
    apply (step_halt_frame _ _ _ Hstep). discriminate.
  - by intros ->.
Qed.

Lemma run_loop_raises (fuel : nat) :
  forall (sbs : bool) (ms steps : Z) (hist : list config) (m : TuringMachine.t)
         (tp : Tape.t) (c : console) (l : list status) (e : exception),
    TuringMachine.tape m = Some tp ->
    fst (run_loop sbs fuel ms steps hist (mk_world m c l)) = Raise e ->
    e = EOFError /\ sbs = true /\
    stdin (io (snd (run_loop sbs fuel ms steps hist (mk_world m c l)))) = [].
Proof.
  induction fuel as [|fuel IH]; intros sbs ms steps hist m tp c l e Ht.
  - destruct (decide (steps < ms)) as [Hlt|Hge].
    + by rewrite run_loop_out_of_fuel.
    + by rewrite run_loop_stop.
  - destruct (decide (steps < ms)) as [Hlt|Hge]; [|by rewrite run_loop_stop].
    destruct (run_loop_step_cases sbs m c l)
      as [[Ht' _]|[(tp0 & _ & -> & _ & E)|[(tp0 & r & _ & _ & _ & _ & _ & E)
         |(tp0 & m' & tp' & _ & _ & _ & Ht' & E)]]]; [congruence| | |];
      rewrite E by done.
    + simpl. by intros [= <-].
    + discriminate.
    + by apply (IH _ _ _ _ _ tp').
Qed.

(** X19. [run] fails in two situations only: the machine has no tape (the
    error of line 117, raised before anything is done), or, in step-by-step
    mode, a prompt finds standard input exhausted ([EOFError]).  In
    particular a run without step-by-step mode on a loaded machine never
    fails, and no run ever fails on an attribute access. *)
Theorem run_raises_only (w : world) (max_steps : Z) (step_by_step : bool)
    (e : exception) :
  fst (run max_steps step_by_step w) = Raise e ->
  (e = NotInitialized /\ TuringMachine.tape (self w) = None /\
   snd (run max_steps step_by_step w) = w) \/
  (e = EOFError /\ step_by_step = true /\
   stdin (io (snd (run max_steps step_by_step w))) = []).
Proof.
  unfold run. rewrite run_fuel_unfold.
  destruct (TuringMachine.tape (self w)) as [tp|] eqn:Ht.
  - intros H. right. destruct w as [m c l].
    by apply (run_loop_raises _ _ _ _ _ _ tp _ _ _ Ht H).
  - simpl. intros [= <-]. by left.
Qed.

Lemma run_raises_only_witness :
  (NotInitialized = NotInitialized /\
   TuringMachine.tape (self (world_of create_on1n_machine [])) = None /\
   snd (run 1000 false (world_of create_on1n_machine []))
     = world_of create_on1n_machine []) \/
  (NotInitialized = EOFError /\ false = true /\
   stdin (io (snd (run 1000 false (world_of create_on1n_machine [])))) = []).
Proof.
  apply (run_raises_only (world_of create_on1n_machine []) 1000 false NotInitialized).
  reflexivity.
Defined.

(** ** Rendering of the tape *)

Lemma string_length_app (a b : string) :
  String.length (a +:+ b) = (String.length a + String.length b)%nat.
Proof. induction a as [|x a IH]; simpl; [done|]. by rewrite IH. Qed.

Lemma string_concat_cons_length (a : string) (l : list string) :
  String.length (String.concat "" (a :: l)) =
    (String.length a + String.length (String.concat "" l))%nat.
Proof.
  destruct l as [|b l]; simpl.
  - lia.
  - by rewrite string_length_app.
Qed.

(** The cells of a window of distinct positions take at most [L] characters
    each, plus the two brackets around the head cell. *)
Lemma window_length (t : Tape.t) (L : nat) (l : list Z) :
  (String.length (Tape.blank t) <= L)%nat ->
  (forall p s, Tape.content t !! p = Some s -> (String.length s <= L)%nat) ->
  NoDup l ->
  (String.length
     (String.concat ""
        (map (fun pos =>
                let sym := default (Tape.blank t) (Tape.content t !! pos) in
                if bool_decide (pos = Tape.head t)
                then ("[" +:+ sym +:+ "]")%string
                else sym) l))
   <= length l * L + (if bool_decide (Tape.head t ∈ l) then 2 else 0))%nat.
Proof.
  intros Hb Hc. induction l as [|x l IH]; intros Hnd.
  - simpl. lia.
  - apply NoDup_cons in Hnd as [Hx Hnd]. specialize (IH Hnd).
    cbn [map]. rewrite string_concat_cons_length. cbv zeta in IH |- *.
    assert (Hsym : (String.length (default (Tape.blank t) (Tape.content t !! x)) <= L)%nat).
    { destruct (Tape.content t !! x) as [s|] eqn:E; simpl; [by eapply Hc|done]. }
    cbn [length]. destruct (decide (x = Tape.head t)) as [Hh|Hh].
    + rewrite (bool_decide_eq_true_2 (x = Tape.head t)) by done.
      rewrite (bool_decide_eq_false_2 (Tape.head t ∈ l)) in IH by (by rewrite <- Hh).
      rewrite (bool_decide_eq_true_2 (Tape.head t ∈ x :: l))
        by (rewrite <- Hh; apply list_elem_of_here).
      rewrite !string_length_app. simpl. lia.
    + rewrite (bool_decide_eq_false_2 (x = Tape.head t)) by done.
      destruct (decide (Tape.head t ∈ l)) as [Hin|Hnin].
      * rewrite (bool_decide_eq_true_2 (Tape.head t ∈ l)) in IH by done.
        rewrite (bool_decide_eq_true_2 (Tape.head t ∈ x :: l))
          by (by apply list_elem_of_further).
        lia.
      * rewrite (bool_decide_eq_false_2 (Tape.head t ∈ l)) in IH by done.
        rewrite (bool_decide_eq_false_2 (Tape.head t ∈ x :: l)).
        -- lia.
        -- intros [?|?]%elem_of_cons; [congruence|done].
Qed.

(** X20. The rendering has a bounded width: when the blank and every
    stored symbol are at most [L] characters long, the text is at most
    [101 * L + 8] characters long, wherever the head is and however many
    cells are stored (at most 101 cells, two brackets, two ellipses). *)
Theorem Tape_str_width (t : Tape.t) (L : nat) :
  (String.length (Tape.blank t) <= L)%nat ->
  (forall p s, Tape.content t !! p = Some s -> (String.length s <= L)%nat) ->
  (String.length (Tape.str t) <= 101 * L + 8)%nat.
Proof.
  intros Hb Hc. unfold Tape.str. cbv zeta.
  assert (Hempty : (String.length
             ("..." +:+ Tape.blank t +:+ "[" +:+ Tape.blank t +:+ "]...")%string
           <= 101 * L + 8)%nat).
  { rewrite !string_length_app. simpl. lia. }
  case_bool_decide as Hne; [exact Hempty|].
  destruct (merge_sort Z.le (elements (dom (Tape.content t)))) as [|p ps];
    [exact Hempty|].
  set (start := Z.max (Z.max (Tape.list_min p ps - 5) (Tape.head t - 25)) (-50)).
  set (end_ := Z.min (Z.min (Tape.list_max p ps + 5) (Tape.head t + 25)) 50).
  rewrite !string_length_app.
  pose proof (window_length t L (seqZ start (end_ + 1 - start)) Hb Hc
                (NoDup_seqZ _ _)) as Hw.
  cbv zeta in Hw. rewrite length_seqZ in Hw.
  assert (Hn : (Z.to_nat (end_ + 1 - start) <= 101)%nat) by (subst start end_; lia).
  assert (Hl : forall b : bool,
             (String.length (if b then "..."%string else ""%string) <= 3)%nat)
    by (intros []; simpl; lia).
  pose proof (Hl (bool_decide (start > Tape.list_min p ps - 5))) as Hl1.
  pose proof (Hl (bool_decide (end_ < Tape.list_max p ps + 5))) as Hl2.
  destruct (bool_decide (Tape.head t ∈ seqZ start (end_ + 1 - start))); nia.
Qed.

Lemma Tape_str_width_witness :
  (String.length (Tape.str (Tape.init "0011" "_")) <= 101 * 1 + 8)%nat.
Proof.
  apply (Tape_str_width (Tape.init "0011" "_") 1).
  - simpl. lia.
  - intros p s. rewrite (Tape_init_seeded "0011" "_" p).
    case_bool_decide; [|discriminate].
    destruct (Z.to_nat p) as [|[|[|[|n]]]]; simpl; intros [= <-]; simpl; lia.
Defined.

(** ** The bundled machine on 0^n 1^n *)

Lemma reaches_O (m : TuringMachine.t) : reaches 0 m m.
Proof. split; [constructor|done]. Qed.

Lemma reaches_S (k : nat) (m m' m'' : TuringMachine.t) :
  TuringMachine.step m = (Return Continue, m') ->
  reaches k m' m'' -> reaches (S k) m m''.
Proof.
  intros Hstep [Hall Hend]. unfold reaches. cbn [visited after_steps].
  rewrite Hstep. cbn [snd]. split; [|done].
  constructor; [by rewrite Hstep|done].
Qed.

Lemma reaches_app (a : nat) :
  forall (b : nat) (m m' m'' : TuringMachine.t),
    reaches a m m' -> reaches b m' m'' -> reaches (a + b) m m''.
Proof.
  induction a as [|a IH]; intros b m m' m'' [Hall Hend] Hb.
  - simpl in Hend. by subst.
  - cbn [visited after_steps] in Hall, Hend.
    apply Forall_cons in Hall as [Hm Hall].
    change (S a + b)%nat with (S (a + b)).
    destruct (TuringMachine.step m) as [r m1] eqn:Hstep. simpl in *. subst r.
    apply (reaches_S _ _ m1); [done|].
    apply (IH b m1 m'); [by split|done].
Qed.

Lemma visited_prefix {P : TuringMachine.t -> Prop} (a : nat) :
  forall (k : nat) (m : TuringMachine.t),
    (a <= k)%nat -> Forall P (visited k m) -> Forall P (visited a m).
Proof.
  induction a as [|a IH]; intros k m Hle Hall; [constructor|].
  destruct k as [|k]; [lia|]. cbn [visited] in *.
  apply Forall_cons in Hall as [Hm Hall].
  constructor; [done|]. apply (IH k); [lia|done].
Qed.

Lemma tape_eta (t : Tape.t) :
  t = {| Tape.content := Tape.content t; Tape.blank := Tape.blank t;
         Tape.head := Tape.head t |}.
Proof. by destruct t. Qed.

Lemma set_state_tape_twice (m0 : TuringMachine.t) (q q' : option string)
    (t t' : option Tape.t) :
  TuringMachine.set_current_state q'
    (TuringMachine.set_tape t'
       (TuringMachine.set_current_state q (TuringMachine.set_tape t m0))) =
  TuringMachine.set_current_state q' (TuringMachine.set_tape t' m0).
Proof. by destruct m0. Qed.

(** One continuing step of the bundled machine. *)
Lemma on1n_step (q q' w d : string) (p : Z) (c : gmap Z string) :
  q <> "q_accept"%string -> q <> "q_reject"%string ->
  TransitionFunction.get (Some q) (default "_"%string (c !! p))
    (TuringMachine.transition_function create_on1n_machine) = Some (q', w, d) ->
  TuringMachine.step (on1n_at q p c) =
    (Return Continue,
     on1n_at q' (p + displacement d)
       (Tape.content (Tape.write w (Tape.mk c "_" p)))).
Proof.
  intros Ha Hr Hget. unfold TuringMachine.step.
  assert (Hacc : TuringMachine.in_accept_states (on1n_at q p c) = false).
  { apply (in_accept_states_false _ q); [done|].
    change (q ∉ ["q_accept"%string]). by intros ->%list_elem_of_singleton. }
  assert (Hrej : TuringMachine.in_reject_states (on1n_at q p c) = false).
  { apply (in_reject_states_false _ q); [done|].
    change (q ∉ ({["q_reject"%string]} : gset string)). by intros ->%elem_of_singleton. }
  rewrite Hacc, Hrej.
  change (TuringMachine.tape (on1n_at q p c)) with (Some (Tape.mk c "_" p)).
  cbv iota beta.
  change (TuringMachine.current_state (on1n_at q p c)) with (Some q).
  change (TuringMachine.transition_function (on1n_at q p c))
    with (TuringMachine.transition_function create_on1n_machine).
  change (Tape.read (Tape.mk c "_" p)) with (default "_"%string (c !! p)).
  rewrite Hget. f_equal.
  destruct (move_effect d (Tape.write w (Tape.mk c "_" p)))
    as (_ & _ & Hc & Hb & Hh).
  destruct (write_frame w (Tape.mk c "_" p)) as (Hwh & Hwb & _).
  rewrite (tape_eta (Tape.move d (Tape.write w (Tape.mk c "_" p)))).
  rewrite Hc, Hb, Hh, Hwh, Hwb.
  unfold on1n_at. by rewrite set_state_tape_twice.
Qed.

Lemma write_stored (w s b : string) (p : Z) (c : gmap Z string) :
  c !! p = Some s ->
  Tape.content (Tape.write w (Tape.mk c b p)) = <[p := w]> c.
Proof.
  intros Hs. unfold Tape.write. cbn [Tape.content Tape.head Tape.blank].
  rewrite (bool_decide_eq_false_2 (c !! p = None)) by (by rewrite Hs).
  by rewrite andb_false_r.
Qed.

Lemma write_blank_on_blank (b : string) (p : Z) (c : gmap Z string) :
  default b (c !! p) = b ->
  Tape.content (Tape.write b (Tape.mk c b p)) = c.
Proof.
  intros Hb. destruct (c !! p) as [s|] eqn:Hs.
  - rewrite (write_stored b s b p c Hs). simpl in Hb. subst s. by apply insert_id.
  - unfold Tape.write. cbn [Tape.content Tape.head Tape.blank]. rewrite Hs.
    rewrite !bool_decide_eq_true_2 by done. cbn [andb].
    by rewrite bool_decide_eq_false_2 by (by intros [? ?]).
Qed.

Lemma on1n_step_keep (q q' s d : string) (p : Z) (c : gmap Z string) :
  q <> "q_accept"%string -> q <> "q_reject"%string ->
  c !! p = Some s ->
  TransitionFunction.get (Some q) s
    (TuringMachine.transition_function create_on1n_machine) = Some (q', s, d) ->
  TuringMachine.step (on1n_at q p c) =
    (Return Continue, on1n_at q' (p + displacement d) c).
Proof.
  intros Ha Hr Hs Hget.
  rewrite (on1n_step q q' s d p c Ha Hr) by (by rewrite Hs).
  rewrite (write_stored s s "_" p c Hs). by rewrite insert_id.
Qed.

Lemma on1n_step_mark (q q' s w d : string) (p : Z) (c : gmap Z string) :
  q <> "q_accept"%string -> q <> "q_reject"%string ->
  c !! p = Some s ->
  TransitionFunction.get (Some q) s
    (TuringMachine.transition_function create_on1n_machine) = Some (q', w, d) ->
  TuringMachine.step (on1n_at q p c) =
    (Return Continue, on1n_at q' (p + displacement d) (<[p := w]> c)).
Proof.
  intros Ha Hr Hs Hget.
  rewrite (on1n_step q q' w d p c Ha Hr) by (by rewrite Hs).
  by rewrite (write_stored w s "_" p c Hs).
Qed.

Lemma on1n_step_blank (q q' d : string) (p : Z) (c : gmap Z string) :
  q <> "q_accept"%string -> q <> "q_reject"%string ->
  default "_"%string (c !! p) = "_"%string ->
  TransitionFunction.get (Some q) "_"
    (TuringMachine.transition_function create_on1n_machine) = Some (q', "_"%string, d) ->
  TuringMachine.step (on1n_at q p c) =
    (Return Continue, on1n_at q' (p + displacement d) c).
Proof.
  intros Ha Hr Hs Hget.
  rewrite (on1n_step q q' "_" d p c Ha Hr) by (by rewrite Hs).
  by rewrite (write_blank_on_blank "_" p c Hs).
Qed.

Lemma displacement_R : displacement "R" = 1.
Proof. reflexivity. Qed.

Lemma displacement_L : displacement "L" = -1.
Proof. reflexivity. Qed.

Lemma displacement_N : displacement "N" = 0.
Proof. reflexivity. Qed.

(** A state that copies every symbol of a stretch of cells and moves right
    crosses the stretch, one cell per step, leaving the tape as it is. *)
Lemma on1n_scan_right (q : string) (c : gmap Z string) (k : nat) :
  forall p : Z,
    q <> "q_accept"%string -> q <> "q_reject"%string ->
    (forall i, 0 <= i < Z.of_nat k ->
       exists s, c !! (p + i) = Some s /\
         TransitionFunction.get (Some q) s
           (TuringMachine.transition_function create_on1n_machine)
           = Some (q, s, "R"%string)) ->
    reaches k (on1n_at q p c) (on1n_at q (p + Z.of_nat k) c).
Proof.
  induction k as [|k IH]; intros p Ha Hr Hcells.
  - rewrite Z.add_0_r. apply reaches_O.
  - destruct (Hcells 0) as (s & Hs & Hget); [lia|]. rewrite Z.add_0_r in Hs.
    apply (reaches_S _ _ (on1n_at q (p + 1) c)).
    + rewrite (on1n_step_keep q q s "R" p c Ha Hr Hs Hget).
      by rewrite displacement_R.
    + replace (p + Z.of_nat (S k)) with (p + 1 + Z.of_nat k) by lia.
      apply IH; [done|done|].
      intros i Hi. destruct (Hcells (i + 1)) as (s' & Hs' & Hget'); [lia|].
      exists s'. split; [|done]. by replace (p + 1 + i) with (p + (i + 1)) by lia.
Qed.

Lemma on1n_scan_left (q : string) (c : gmap Z string) (k : nat) :
  forall p : Z,
    q <> "q_accept"%string -> q <> "q_reject"%string ->
    (forall i, 0 <= i < Z.of_nat k ->
       exists s, c !! (p - i) = Some s /\
         TransitionFunction.get (Some q) s
           (TuringMachine.transition_function create_on1n_machine)
           = Some (q, s, "L"%string)) ->
    reaches k (on1n_at q p c) (on1n_at q (p - Z.of_nat k) c).
Proof.
  induction k as [|k IH]; intros p Ha Hr Hcells.
  - rewrite Z.sub_0_r. apply reaches_O.
  - destruct (Hcells 0) as (s & Hs & Hget); [lia|]. rewrite Z.sub_0_r in Hs.
    apply (reaches_S _ _ (on1n_at q (p + -1) c)).
    + rewrite (on1n_step_keep q q s "L" p c Ha Hr Hs Hget).
      by rewrite displacement_L.
    + replace (p - Z.of_nat (S k)) with (p + -1 - Z.of_nat k) by lia.
      apply IH; [done|done|].
      intros i Hi. destruct (Hcells (i + 1)) as (s' & Hs' & Hget'); [lia|].
      exists s'. split; [|done]. by replace (p + -1 - i) with (p - (i + 1)) by lia.
Qed.

Ltac on1n_table := vm_compute; reflexivity.

Lemma marked_lookup (c : gmap Z string) (a b i : Z) (x y : string) :
  <[a := y]> (<[b := x]> c) !! i =
    if bool_decide (i = a) then Some y
    else if bool_decide (i = b) then Some x
    else c !! i.
Proof.
  rewrite !lookup_insert.
  repeat case_decide; repeat case_bool_decide; congruence.
Qed.

(** One round of marking: from the start of the word, the machine marks
    the first unmarked zero and the first unmarked one and comes back, in
    [2 a + 2 j + 2] steps. *)
Lemma on1n_one_round (a b j : nat) (c : gmap Z string) :
  (j < a)%nat -> (j < b)%nat ->
  on1n_round (Z.of_nat a) (Z.of_nat b) (Z.of_nat j) c ->
  on1n_round (Z.of_nat a) (Z.of_nat b) (Z.of_nat (S j))
    (<[Z.of_nat a + Z.of_nat j := "Y"%string]> (<[Z.of_nat j := "X"%string]> c)) /\
  reaches (2 * a + 2 * j + 2) (on1n_at "q0" 0 c)
    (on1n_at "q0" 0
       (<[Z.of_nat a + Z.of_nat j := "Y"%string]> (<[Z.of_nat j := "X"%string]> c))).
Proof.
  intros Hja Hjb (HX & H0 & HY & H1 & Hleft & Hright).
  set (A := Z.of_nat a) in *. set (B := Z.of_nat b) in *.
  set (J := Z.of_nat j) in *.
  set (c1 := <[J := "X"%string]> c).
  set (c2 := <[A + J := "Y"%string]> c1).
  assert (HA : 0 <= J < A) by (subst A J; lia).
  assert (HB : 0 <= J < B) by (subst B J; lia).
  split.
  - repeat split.
    + intros i Hi. subst c2 c1. rewrite marked_lookup.
      rewrite bool_decide_eq_false_2 by lia.
      case_bool_decide; [done|]. apply HX. lia.
    + intros i Hi. subst c2 c1. rewrite marked_lookup.
      rewrite !bool_decide_eq_false_2 by lia. apply H0. lia.
    + intros i Hi. subst c2 c1. rewrite marked_lookup.
      case_bool_decide; [done|].
      rewrite bool_decide_eq_false_2 by lia. apply HY. lia.
    + intros i Hi. subst c2 c1. rewrite marked_lookup.
      rewrite !bool_decide_eq_false_2 by lia. apply H1. lia.
    + subst c2 c1. rewrite marked_lookup.
      by rewrite !bool_decide_eq_false_2 by lia.
    + subst c2 c1. rewrite marked_lookup.
      by rewrite !bool_decide_eq_false_2 by lia.
  - replace (2 * a + 2 * j + 2)%nat
      with (j + S ((a - 1) + S ((a + j) + 1)))%nat by lia.
    apply (reaches_app _ _ _ (on1n_at "q0" J c)).
    { replace J with (0 + Z.of_nat j) at 2 by (subst J; lia).
      apply on1n_scan_right; [done|done|].
      intros i Hi. exists "X"%string. split; [apply HX; subst J; lia|on1n_table]. }
    apply (reaches_S _ _ (on1n_at "q1" (J + 1) c1)).
    { rewrite (on1n_step_mark "q0" "q1" "0" "X" "R" J c);
        [by rewrite displacement_R|done|done|apply H0; lia|on1n_table]. }
    apply (reaches_app _ _ _ (on1n_at "q1" (A + J) c1)).
    { replace (A + J) with (J + 1 + Z.of_nat (a - 1)) by (subst A J; lia).
      apply on1n_scan_right; [done|done|].
      intros i Hi. subst c1. rewrite lookup_insert_ne by lia.
      destruct (decide (J + 1 + i < A)) as [Hlt|Hge].
      - exists "0"%string. split; [apply H0; lia|on1n_table].
      - exists "Y"%string. split; [apply HY; subst A J; lia|on1n_table]. }
    apply (reaches_S _ _ (on1n_at "q2" (A + J + -1) c2)).
    { rewrite (on1n_step_mark "q1" "q2" "1" "Y" "L" (A + J) c1);
        [by rewrite displacement_L|done|done| |on1n_table].
      subst c1. rewrite lookup_insert_ne by lia. apply H1. lia. }
    apply (reaches_app _ _ _ (on1n_at "q2" (-1) c2)).
    { replace (-1) with (A + J + -1 - Z.of_nat (a + j)) at 2 by (subst A J; lia).
      apply on1n_scan_left; [done|done|].
      intros i Hi. subst c2 c1. rewrite marked_lookup.
      rewrite bool_decide_eq_false_2 by lia.
      case_bool_decide as HiJ; [exists "X"%string; split; [done|on1n_table]|].
      destruct (decide (A + J + -1 - i < J)) as [Hlt|Hge].
      - exists "X"%string. split; [apply HX; subst A J; lia|on1n_table].
      - destruct (decide (A + J + -1 - i < A)) as [Hlt'|Hge'].
        + exists "0"%string. split; [apply H0; lia|on1n_table].
        + exists "Y"%string. split; [apply HY; subst A J; lia|on1n_table]. }
    apply (reaches_S _ _ (on1n_at "q0" 0 c2)); [|apply reaches_O].
    rewrite (on1n_step_blank "q2" "q0" "R" (-1) c2);
      [by rewrite displacement_R|done|done| |on1n_table].
    subst c2 c1. rewrite marked_lookup.
    rewrite !bool_decide_eq_false_2 by lia. by rewrite Hleft.
Qed.

Lemma on1n_rounds (a b j : nat) :
  (j <= a)%nat -> (j <= b)%nat ->
  forall c : gmap Z string,
    on1n_round (Z.of_nat a) (Z.of_nat b) 0 c ->
    exists c',
      on1n_round (Z.of_nat a) (Z.of_nat b) (Z.of_nat j) c' /\
      reaches (2 * a * j + j * j + j) (on1n_at "q0" 0 c) (on1n_at "q0" 0 c').
Proof.
  induction j as [|j IH]; intros Hja Hjb c Hc.
  - exists c. split; [done|].
    replace (2 * a * 0 + 0 * 0 + 0)%nat with 0%nat by lia. apply reaches_O.
  - destruct (IH ltac:(lia) ltac:(lia) c Hc) as (c' & Hc' & Hreach).
    destruct (on1n_one_round a b j c' ltac:(lia) ltac:(lia) Hc') as [Hc'' Hround].
    eexists. split; [exact Hc''|].
    replace (2 * a * S j + S j * S j + S j)%nat
      with ((2 * a * j + j * j + j) + (2 * a + 2 * j + 2))%nat by lia.
    by eapply reaches_app.
Qed.

Lemma on1n_accepting (p : Z) (c : gmap Z string) :
  TuringMachine.step (on1n_at "q_accept" p c) =
    (Return Accept, on1n_at "q_accept" p c).
Proof.
  unfold TuringMachine.step.
  rewrite (in_accept_states_true _ "q_accept"); [done|done|].
  change ("q_accept"%string ∈ ["q_accept"%string]). apply list_elem_of_here.
Qed.

Lemma on1n_rejecting (p : Z) (c : gmap Z string) :
  TuringMachine.step (on1n_at "q_reject" p c) =
    (Return Reject, on1n_at "q_reject" p c).
Proof.
  unfold TuringMachine.step.
  rewrite (in_accept_states_false _ "q_reject"); [|done|].
  - unfold TuringMachine.in_reject_states.
    change (TuringMachine.current_state (on1n_at "q_reject" p c))
      with (Some "q_reject"%string).
    cbv beta iota. rewrite bool_decide_eq_true_2; [done|].
    change ("q_reject"%string ∈ ({["q_reject"%string]} : gset string)).
    by apply elem_of_singleton.
  - change ("q_reject"%string ∉ ["q_accept"%string]).
    by intros ?%list_elem_of_singleton.
Qed.

(** The last phase on a fully marked word of positive length. *)
Lemma on1n_final (n : nat) (c : gmap Z string) :
  (0 < n)%nat ->
  on1n_round (Z.of_nat n) (Z.of_nat n) (Z.of_nat n) c ->
  reaches (2 * n + 1) (on1n_at "q0" 0 c) (on1n_at "q_accept" (2 * Z.of_nat n) c).
Proof.
  intros Hn (HX & H0 & HY & H1 & Hleft & Hright).
  set (N := Z.of_nat n) in *.
  replace (2 * n + 1)%nat with (n + S ((n - 1) + 1))%nat by lia.
  apply (reaches_app _ _ _ (on1n_at "q0" N c)).
  { replace N with (0 + Z.of_nat n) at 2 by (subst N; lia).
    apply on1n_scan_right; [done|done|].
    intros i Hi. exists "X"%string. split; [apply HX; subst N; lia|on1n_table]. }
  apply (reaches_S _ _ (on1n_at "q3" (N + 1) c)).
  { rewrite (on1n_step_keep "q0" "q3" "Y" "R" N c);
      [by rewrite displacement_R|done|done|apply HY; subst N; lia|on1n_table]. }
  apply (reaches_app _ _ _ (on1n_at "q3" (2 * N) c)).
  { replace (2 * N) with (N + 1 + Z.of_nat (n - 1)) by (subst N; lia).
    apply on1n_scan_right; [done|done|].
    intros i Hi. exists "Y"%string. split; [apply HY; subst N; lia|on1n_table]. }
  apply (reaches_S _ _ (on1n_at "q_accept" (2 * N) c)); [|apply reaches_O].
  rewrite (on1n_step_blank "q3" "q_accept" "N" (2 * N) c);
    [by rewrite displacement_N, Z.add_0_r|done|done| |on1n_table].
  by replace (2 * N) with (N + N) by lia.
Qed.

(** The whole run on the empty word: two steps. *)
Lemma on1n_final_empty (c : gmap Z string) :
  default "_"%string (c !! 0) = "_"%string ->
  default "_"%string (c !! 1) = "_"%string ->
  reaches 2 (on1n_at "q0" 0 c) (on1n_at "q_accept" 1 c).
Proof.
  intros H0 H1.
  apply (reaches_S _ _ (on1n_at "q3" 1 c)).
  { rewrite (on1n_step_blank "q0" "q3" "R" 0 c);
      [by rewrite displacement_R|done|done|done|on1n_table]. }
  apply (reaches_S _ _ (on1n_at "q_accept" 1 c)); [|apply reaches_O].
  rewrite (on1n_step_blank "q3" "q_accept" "N" 1 c);
    [by rewrite displacement_N|done|done|done|on1n_table].
Qed.

(** The last phase when zeros are left over: the next zero is marked, and
    the search for a one to pair it with ends on the blank after the
    word. *)
Lemma on1n_final_more_zeros (a b : nat) (c : gmap Z string) :
  (b < a)%nat ->
  on1n_round (Z.of_nat a) (Z.of_nat b) (Z.of_nat b) c ->
  reaches (a + b + 1) (on1n_at "q0" 0 c)
    (on1n_at "q_reject" (Z.of_nat a + Z.of_nat b) (<[Z.of_nat b := "X"%string]> c)).
Proof.
  intros Hab (HX & H0 & HY & H1 & Hleft & Hright).
  set (A := Z.of_nat a) in *. set (B := Z.of_nat b) in *.
  set (c1 := <[B := "X"%string]> c).
  assert (HAB : 0 <= B < A) by (subst A B; lia).
  replace (a + b + 1)%nat with (b + S ((a - 1) + 1))%nat by lia.
  apply (reaches_app _ _ _ (on1n_at "q0" B c)).
  { replace B with (0 + Z.of_nat b) at 2 by (subst B; lia).
    apply on1n_scan_right; [done|done|].
    intros i Hi. exists "X"%string. split; [apply HX; subst B; lia|on1n_table]. }
  apply (reaches_S _ _ (on1n_at "q1" (B + 1) c1)).
  { rewrite (on1n_step_mark "q0" "q1" "0" "X" "R" B c);
      [by rewrite displacement_R|done|done|apply H0; lia|on1n_table]. }
  apply (reaches_app _ _ _ (on1n_at "q1" (A + B) c1)).
  { replace (A + B) with (B + 1 + Z.of_nat (a - 1)) by (subst A B; lia).
    apply on1n_scan_right; [done|done|].
    intros i Hi. subst c1. rewrite lookup_insert_ne by lia.
    destruct (decide (B + 1 + i < A)) as [Hlt|Hge].
    - exists "0"%string. split; [apply H0; lia|on1n_table].
    - exists "Y"%string. split; [apply HY; subst A B; lia|on1n_table]. }
  apply (reaches_S _ _ (on1n_at "q_reject" (A + B) c1)); [|apply reaches_O].
  rewrite (on1n_step_blank "q1" "q_reject" "N" (A + B) c1);
    [by rewrite displacement_N, Z.add_0_r|done|done| |on1n_table].
  subst c1. by rewrite lookup_insert_ne by lia.
Qed.

(** The last phase when ones are left over: past the marked symbols the
    machine meets an unmarked one. *)
Lemma on1n_final_more_ones (a b : nat) (c : gmap Z string) :
  (a < b)%nat ->
  on1n_round (Z.of_nat a) (Z.of_nat b) (Z.of_nat a) c ->
  reaches (2 * a + 1) (on1n_at "q0" 0 c) (on1n_at "q_reject" (2 * Z.of_nat a) c).
Proof.
  intros Hab (HX & H0 & HY & H1 & Hleft & Hright).
  set (A := Z.of_nat a) in *. set (B := Z.of_nat b) in *.
  assert (HAB : 0 <= A < B) by (subst A B; lia).
  destruct a as [|a'].
  - apply (reaches_S _ _ (on1n_at "q_reject" 0 c)); [|apply reaches_O].
    rewrite (on1n_step_keep "q0" "q_reject" "1" "N" 0 c);
      [by rewrite displacement_N|done|done|apply H1; subst A; lia|on1n_table].
  - set (a := S a') in *.
    replace (2 * a + 1)%nat with (a + S ((a - 1) + 1))%nat by lia.
    apply (reaches_app _ _ _ (on1n_at "q0" A c)).
    { replace A with (0 + Z.of_nat a) at 2 by (subst A; lia).
      apply on1n_scan_right; [done|done|].
      intros i Hi. exists "X"%string. split; [apply HX; subst A; lia|on1n_table]. }
    apply (reaches_S _ _ (on1n_at "q3" (A + 1) c)).
    { rewrite (on1n_step_keep "q0" "q3" "Y" "R" A c);
        [by rewrite displacement_R|done|done|apply HY; subst A a; lia|on1n_table]. }
    apply (reaches_app _ _ _ (on1n_at "q3" (2 * A) c)).
    { replace (2 * A) with (A + 1 + Z.of_nat (a - 1)) by (subst A a; lia).
      apply on1n_scan_right; [done|done|].
      intros i Hi. exists "Y"%string.
      split; [apply HY; subst A a; lia|on1n_table]. }
    apply (reaches_S _ _ (on1n_at "q_reject" (2 * A) c)); [|apply reaches_O].
    rewrite (on1n_step_keep "q3" "q_reject" "1" "N" (2 * A) c);
      [by rewrite displacement_N, Z.add_0_r|done|done|apply H1; lia|on1n_table].
Qed.

Lemma on1n_computation (n : nat) (c : gmap Z string) :
  on1n_round (Z.of_nat n) (Z.of_nat n) 0 c ->
  (n = 0%nat -> default "_"%string (c !! 1) = "_"%string) ->
  exists p c', reaches (on1n_steps n) (on1n_at "q0" 0 c) (on1n_at "q_accept" p c').
Proof.
  intros Hc H1. destruct n as [|n].
  - exists 1, c. apply on1n_final_empty; [|by apply H1].
    by destruct Hc as (_ & _ & _ & _ & _ & ?).
  - destruct (on1n_rounds (S n) (S n) (S n) ltac:(lia) ltac:(lia) c Hc)
      as (c' & Hc' & Hreach).
    exists (2 * Z.of_nat (S n)), c'.
    replace (on1n_steps (S n))
      with ((2 * S n * S n + S n * S n + S n) + (2 * S n + 1))%nat
      by (unfold on1n_steps; lia).
    eapply reaches_app; [exact Hreach|]. apply on1n_final; [lia|done].
Qed.

Lemma on1n_computation_reject (a b : nat) (c : gmap Z string) :
  a <> b ->
  on1n_round (Z.of_nat a) (Z.of_nat b) 0 c ->
  exists p c',
    reaches (on1n_reject_steps a b) (on1n_at "q0" 0 c) (on1n_at "q_reject" p c').
Proof.
  intros Hab Hc. unfold on1n_reject_steps.
  destruct (Nat.ltb_spec b a) as [Hlt|Hge].
  - destruct (on1n_rounds a b b ltac:(lia) ltac:(lia) c Hc) as (c' & Hc' & Hreach).
    eexists _, _.
    replace (2 * a * b + b * b + 2 * b + a + 1)%nat
      with ((2 * a * b + b * b + b) + (a + b + 1))%nat by lia.
    eapply reaches_app; [exact Hreach|]. by apply on1n_final_more_zeros.
  - destruct (on1n_rounds a b a ltac:(lia) ltac:(lia) c Hc) as (c' & Hc' & Hreach).
    eexists _, _.
    replace (3 * a * a + 3 * a + 1)%nat
      with ((2 * a * a + a * a + a) + (2 * a + 1))%nat by lia.
    eapply reaches_app; [exact Hreach|]. apply (on1n_final_more_ones a b); [lia|done].
Qed.

Lemma chars_repeat_char (n : nat) (a : ascii) (rest : string) :
  chars (repeat_char n a rest) = replicate n (String a EmptyString) ++ chars rest.
Proof. induction n as [|n IH]; simpl; [done|]. by rewrite IH. Qed.

Lemma chars_zeros_ones (a b : nat) (rest : string) :
  chars (zeros_ones a b rest) =
    replicate a "0"%string ++ replicate b "1"%string ++ chars rest.
Proof. unfold zeros_ones. by rewrite !chars_repeat_char. Qed.

Lemma on1n_input_alphabet :
  TuringMachine.input_alphabet create_on1n_machine ++
    [TuringMachine.blank create_on1n_machine] = ["0"; "1"; "_"]%string.
Proof. reflexivity. Qed.

Lemma zeros_ones_valid (a b : nat) (rest : string) :
  TuringMachine.invalid_input rest create_on1n_machine = false ->
  TuringMachine.invalid_input (zeros_ones a b rest) create_on1n_machine = false.
Proof.
  unfold TuringMachine.invalid_input. rewrite on1n_input_alphabet.
  rewrite !bool_decide_eq_false, chars_zeros_ones, !Exists_app.
  intros Hrest [H|[H|H]]; [| |done].
  - apply Exists_exists in H as (x & ->%elem_of_replicate_inv & Hx).
    apply Hx. set_solver.
  - apply Exists_exists in H as (x & ->%elem_of_replicate_inv & Hx).
    apply Hx. set_solver.
Qed.

(** The tape seeded with 0^a 1^b and a rest that is empty or starts with a
    blank is the tape before the first round. *)
Lemma zeros_ones_round (a b : nat) (rest : string) :
  default "_"%string (chars rest !! 0%nat) = "_"%string ->
  on1n_round (Z.of_nat a) (Z.of_nat b) 0
    (Tape.content (Tape.init (zeros_ones a b rest) "_")).
Proof.
  intros Hrest.
  pose proof (Tape_init_seeded (zeros_ones a b rest) "_") as Hseed.
  unfold seeded_with in Hseed. rewrite chars_zeros_ones in Hseed.
  repeat split.
  - intros i Hi. lia.
  - intros i Hi. rewrite Hseed, bool_decide_eq_true_2 by lia.
    rewrite lookup_app_l by (rewrite length_replicate; lia).
    apply lookup_replicate_2. lia.
  - intros i Hi. lia.
  - intros i Hi. rewrite Hseed, bool_decide_eq_true_2 by lia.
    rewrite lookup_app_r by (rewrite length_replicate; lia).
    rewrite length_replicate.
    rewrite lookup_app_l by (rewrite length_replicate; lia).
    apply lookup_replicate_2. lia.
  - by rewrite Hseed, bool_decide_eq_false_2 by lia.
  - rewrite Hseed, bool_decide_eq_true_2 by lia.
    rewrite lookup_app_r by (rewrite length_replicate; lia).
    rewrite length_replicate.
    rewrite lookup_app_r by (rewrite length_replicate; lia).
    rewrite length_replicate.
    by replace (Z.to_nat (Z.of_nat a + Z.of_nat b) - a - b)%nat with 0%nat by lia.
Qed.

Lemma on1n_load (s : string) :
  TuringMachine.invalid_input s create_on1n_machine = false ->
  TuringMachine.load_input s create_on1n_machine =
    (Return tt, on1n_at "q0" 0 (Tape.content (Tape.init s "_"))).
Proof. intros H. rewrite load_input_outcome, H. reflexivity. Qed.

(** On 0^n 1^n followed by nothing, or by a blank and anything, the
    machine continues for [on1n_steps n] steps and is then in its accepting
    state. *)
Lemma on1n_word_halts (n : nat) (rest : string) :
  TuringMachine.invalid_input rest create_on1n_machine = false ->
  default "_"%string (chars rest !! 0%nat) = "_"%string ->
  (n = 0%nat -> default "_"%string (chars rest !! 1%nat) = "_"%string) ->
  exists m tp,
    TuringMachine.load_input (zeros_ones n n rest) create_on1n_machine = (Return tt, m) /\
    TuringMachine.tape m = Some tp /\
    Forall (fun mk => fst (TuringMachine.step mk) = Return Continue)
           (visited (on1n_steps n) m) /\
    fst (TuringMachine.step (after_steps (on1n_steps n) m)) = Return Accept.
Proof.
  intros Hvalid H0 H1.
  set (c0 := Tape.content (Tape.init (zeros_ones n n rest) "_")).
  destruct (on1n_computation n c0) as (p & c' & Hall & Hend).
  - by apply zeros_ones_round.
  - intros ->. subst c0. rewrite (Tape_init_seeded _ "_" 1).
    rewrite bool_decide_eq_true_2 by lia. by apply H1.
  - exists (on1n_at "q0" 0 c0), (Tape.mk c0 "_" 0).
    split; [by apply on1n_load, zeros_ones_valid|].
    split; [done|]. split; [done|].
    by rewrite Hend, on1n_accepting.
Qed.

Lemma empty_rest_valid :
  TuringMachine.invalid_input "" create_on1n_machine = false.
Proof. reflexivity. Qed.

(** On 0^a 1^b with [a <> b] the machine continues for
    [on1n_reject_steps a b] steps and is then in its rejecting state. *)
Lemma on1n_word_rejected (a b : nat) :
  a <> b ->
  exists m tp,
    TuringMachine.load_input (zeros_ones a b "") create_on1n_machine = (Return tt, m) /\
    TuringMachine.tape m = Some tp /\
    Forall (fun mk => fst (TuringMachine.step mk) = Return Continue)
           (visited (on1n_reject_steps a b) m) /\
    fst (TuringMachine.step (after_steps (on1n_reject_steps a b) m)) = Return Reject.
Proof.
  intros Hab.
  set (c0 := Tape.content (Tape.init (zeros_ones a b "") "_")).
  destruct (on1n_computation_reject a b c0 Hab) as (p & c' & Hall & Hend).
  - by apply zeros_ones_round.
  - exists (on1n_at "q0" 0 c0), (Tape.mk c0 "_" 0).
    split; [by apply on1n_load, zeros_ones_valid, empty_rest_valid|].
    split; [done|]. split; [done|].
    by rewrite Hend, on1n_rejecting.
Qed.

(** X21. The bundled machine accepts every word 0^n 1^n: after
    [load_input], a run without step-by-step mode with a budget above
    [on1n_steps n] (2 for the empty word, [3 n^2 + 3 n + 1] otherwise)
    returns ['accept'], after exactly that many continuing calls of [step]
    and one halting call, with a history of [on1n_steps n + 2] entries. *)
Theorem on1n_accepts_0n1n (n : nat) (max_steps : Z) (c : console)
    (l : list status) :
  Z.of_nat (on1n_steps n) < max_steps ->
  exists m h w',
    TuringMachine.load_input (zeros_ones n n "") create_on1n_machine = (Return tt, m) /\
    run max_steps false (mk_world m c l) = (Return (Accept, h), w') /\
    length h = (on1n_steps n + 2)%nat /\
    step_calls w' = l ++ replicate (on1n_steps n) Continue ++ [Accept].
Proof.
  intros Hms.
  destruct (on1n_word_halts n "" empty_rest_valid eq_refl (fun _ => eq_refl))
    as (m & tp & Hload & Ht & Hall & Hend).
  destruct (run_loop_reaches_halt (on1n_steps n) (Z.to_nat max_steps) max_steps 0 []
              m tp c l Accept Ht Hall Hend) as (h & Erun & Hh); [done|lia|lia|].
  exists m, h, (mk_world (after_steps (on1n_steps n) m) c
                  (l ++ replicate (on1n_steps n) Continue ++ [Accept])).
  split; [done|]. split.
  - unfold run. rewrite run_fuel_unfold. cbn [self]. by rewrite Ht.
  - split; [|done]. apply Forall2_length in Hh. rewrite <- Hh.
    rewrite length_app, visited_length. simpl. lia.
Qed.

Lemma on1n_accepts_0n1n_witness :
  exists m h w',
    TuringMachine.load_input (zeros_ones 3 3 "") create_on1n_machine = (Return tt, m) /\
    run 1000 false (mk_world m (mk_console [] []) []) = (Return (Accept, h), w') /\
    length h = (on1n_steps 3 + 2)%nat /\
    step_calls w' = [] ++ replicate (on1n_steps 3) Continue ++ [Accept].
Proof.
  apply (on1n_accepts_0n1n 3 1000 (mk_console [] []) []).
  vm_compute. reflexivity.
Defined.

(** X22. The budget decides the verdict on a word of the language: with a
    budget between 0 and [on1n_steps n], a run on 0^n 1^n returns ['loop'],
    not ['accept'], having used the whole budget.  With the budget of 1000
    of the test table this happens from n = 18 on, and with the budget of
    10000 of [main] from n = 58 on. *)
Theorem on1n_budget_too_small (n : nat) (max_steps : Z) (c : console)
    (l : list status) :
  0 <= max_steps <= Z.of_nat (on1n_steps n) ->
  exists m h w',
    TuringMachine.load_input (zeros_ones n n "") create_on1n_machine = (Return tt, m) /\
    run max_steps false (mk_world m c l) = (Return (Loop, h), w') /\
    length h = Z.to_nat max_steps /\
    step_calls w' = l ++ replicate (Z.to_nat max_steps) Continue.
Proof.
  intros Hms.
  destruct (on1n_word_halts n "" empty_rest_valid eq_refl (fun _ => eq_refl))
    as (m & tp & Hload & Ht & Hall & Hend).
  destruct (run_loop_all_continue false (Z.to_nat max_steps) max_steps 0 []
              m tp c l) as (h & w' & Erun & Hh & Hcalls).
  - lia.
  - done.
  - discriminate.
  - apply (visited_prefix _ (on1n_steps n)); [lia|done].
  - exists m, h, w'. split; [done|]. split.
    + unfold run. rewrite run_fuel_unfold. cbn [self]. by rewrite Ht.
    + rewrite Z.sub_0_r in Hh, Hcalls. split; [|done].
      apply Forall2_length in Hh. by rewrite <- Hh, visited_length.
Qed.

Lemma on1n_budget_too_small_witness :
  exists m h w',
    TuringMachine.load_input (zeros_ones 18 18 "") create_on1n_machine = (Return tt, m) /\
    run 1000 false (mk_world m (mk_console [] []) []) = (Return (Loop, h), w') /\
    length h = Z.to_nat 1000 /\
    step_calls w' = [] ++ replicate (Z.to_nat 1000) Continue.
Proof.
  apply (on1n_budget_too_small 18 1000 (mk_console [] []) []).
  vm_compute. split; discriminate.
Defined.

Lemma blank_rest_valid (u : string) :
  TuringMachine.invalid_input u create_on1n_machine = false ->
  TuringMachine.invalid_input (String "_" u) create_on1n_machine = false.
Proof.
  unfold TuringMachine.invalid_input. rewrite on1n_input_alphabet.
  rewrite !bool_decide_eq_false. cbn [chars].
  intros Hu [H|H]%Exists_cons; [|done]. apply H. set_solver.
Qed.

(** X23. The machine also accepts words outside the language: since
    [load_input] lets the blank through, 0^n 1^n with n > 0 followed by a
    blank and any further loadable text [u] is accepted, after the same
    number of steps as 0^n 1^n alone; the machine never looks past the
    blank. *)
Theorem on1n_accepts_past_blank (n : nat) (u : string) (max_steps : Z)
    (c : console) (l : list status) :
  (0 < n)%nat ->
  TuringMachine.invalid_input u create_on1n_machine = false ->
  Z.of_nat (on1n_steps n) < max_steps ->
  exists m h w',
    TuringMachine.load_input (zeros_ones n n (String "_" u)) create_on1n_machine
      = (Return tt, m) /\
    run max_steps false (mk_world m c l) = (Return (Accept, h), w') /\
    length h = (on1n_steps n + 2)%nat.
Proof.
  intros Hn Hu Hms.
  destruct (on1n_word_halts n (String "_" u) (blank_rest_valid u Hu) eq_refl)
    as (m & tp & Hload & Ht & Hall & Hend); [lia|].
  destruct (run_loop_reaches_halt (on1n_steps n) (Z.to_nat max_steps) max_steps 0 []
              m tp c l Accept Ht Hall Hend) as (h & Erun & Hh); [done|lia|lia|].
  exists m, h, (mk_world (after_steps (on1n_steps n) m) c
                  (l ++ replicate (on1n_steps n) Continue ++ [Accept])).
  split; [done|]. split.
  - unfold run. rewrite run_fuel_unfold. cbn [self]. by rewrite Ht.
  - apply Forall2_length in Hh. rewrite <- Hh.
    rewrite length_app, visited_length. simpl. lia.
Qed.

Lemma on1n_accepts_past_blank_witness :
  exists m h w',
    TuringMachine.load_input (zeros_ones 1 1 (String "_" "10")) create_on1n_machine
      = (Return tt, m) /\
    run 1000 false (mk_world m (mk_console [] []) []) = (Return (Accept, h), w') /\
    length h = (on1n_steps 1 + 2)%nat.
Proof.
  apply (on1n_accepts_past_blank 1 "10" 1000 (mk_console [] []) []).
  - lia.
  - vm_compute. reflexivity.
  - vm_compute. reflexivity.
Defined.

(** X24. The bundled machine rejects every word 0^a 1^b with [a <> b]:
    with a budget above [on1n_reject_steps a b], a run without step-by-step
    mode returns ['reject'] after exactly that many continuing calls of
    [step] and one halting call. *)
Theorem on1n_rejects_unequal (a b : nat) (max_steps : Z) (c : console)
    (l : list status) :
  a <> b ->
  Z.of_nat (on1n_reject_steps a b) < max_steps ->
  exists m h w',
    TuringMachine.load_input (zeros_ones a b "") create_on1n_machine = (Return tt, m) /\
    run max_steps false (mk_world m c l) = (Return (Reject, h), w') /\
    length h = (on1n_reject_steps a b + 2)%nat /\
    step_calls w' = l ++ replicate (on1n_reject_steps a b) Continue ++ [Reject].
Proof.
  intros Hab Hms.
  destruct (on1n_word_rejected a b Hab) as (m & tp & Hload & Ht & Hall & Hend).
  destruct (run_loop_reaches_halt (on1n_reject_steps a b) (Z.to_nat max_steps)
              max_steps 0 [] m tp c l Reject Ht Hall Hend)
    as (h & Erun & Hh); [done|lia|lia|].
  exists m, h, (mk_world (after_steps (on1n_reject_steps a b) m) c
                  (l ++ replicate (on1n_reject_steps a b) Continue ++ [Reject])).
  split; [done|]. split.
  - unfold run. rewrite run_fuel_unfold. cbn [self]. by rewrite Ht.
  - split; [|done]. apply Forall2_length in Hh. rewrite <- Hh.
    rewrite length_app, visited_length. simpl. lia.
Qed.

Lemma on1n_rejects_unequal_witness :
  exists m h w',
    TuringMachine.load_input (zeros_ones 2 1 "") create_on1n_machine = (Return tt, m) /\
    run 1000 false (mk_world m (mk_console [] []) []) = (Return (Reject, h), w') /\
    length h = (on1n_reject_steps 2 1 + 2)%nat /\
    step_calls w' = [] ++ replicate (on1n_reject_steps 2 1) Continue ++ [Reject].
Proof.
  apply (on1n_rejects_unequal 2 1 1000 (mk_console [] []) []).
  - discriminate.
  - vm_compute. reflexivity.
Defined.

(** ** add_transition and step *)

(** X25. Adding a transition only matters where it applies: when the
    machine is in state [q] reading a symbol and the entry added is for
    another (state, symbol) pair, [step] on the extended machine does what
    it did before, the added entry aside; when the entry added is for this
    very pair and [q] is neither accepting nor rejecting, [step] follows it,
    whatever the table said before. *)
Theorem add_transition_step (m : TuringMachine.t) (tp : Tape.t)
    (q cur rd nxt wr dir : string) :
  TuringMachine.current_state m = Some q ->
  TuringMachine.tape m = Some tp ->
  ((q, Tape.read tp) <> (cur, rd) ->
   TuringMachine.step (TuringMachine.add_transition cur rd nxt wr dir m) =
     (fst (TuringMachine.step m),
      TuringMachine.add_transition cur rd nxt wr dir (snd (TuringMachine.step m)))) /\
  ((q, Tape.read tp) = (cur, rd) ->
   q ∉ TuringMachine.accept_states m -> q ∉ TuringMachine.reject_states m ->
   TuringMachine.step (TuringMachine.add_transition cur rd nxt wr dir m) =
     (Return Continue,
      TuringMachine.set_current_state (Some nxt)
        (TuringMachine.set_tape (Some (Tape.move dir (Tape.write wr tp)))
           (TuringMachine.add_transition cur rd nxt wr dir m)))).
Proof.
  intros Hq Ht. split.
  - intros Hne. unfold TuringMachine.step.
    change (TuringMachine.in_accept_states
              (TuringMachine.add_transition cur rd nxt wr dir m))
      with (TuringMachine.in_accept_states m).
    change (TuringMachine.in_reject_states
              (TuringMachine.add_transition cur rd nxt wr dir m))
      with (TuringMachine.in_reject_states m).
    destruct (TuringMachine.in_accept_states m); [done|].
    destruct (TuringMachine.in_reject_states m); [done|].
    cbn [TuringMachine.add_transition TuringMachine.set_transition_function
         TuringMachine.tape TuringMachine.current_state
         TuringMachine.transition_function].
    rewrite Ht, Hq.
    unfold TransitionFunction.get, TransitionFunction.add.
    cbn [TransitionFunction.transitions].
    rewrite lookup_insert_ne by congruence.
    destruct (TransitionFunction.transitions (TuringMachine.transition_function m)
                !! (q, Tape.read tp)) as [[[? ?] ?]|]; reflexivity.
  - intros [= <- <-] Hacc Hrej. unfold TuringMachine.step.
    change (TuringMachine.in_accept_states
              (TuringMachine.add_transition q (Tape.read tp) nxt wr dir m))
      with (TuringMachine.in_accept_states m).
    change (TuringMachine.in_reject_states
              (TuringMachine.add_transition q (Tape.read tp) nxt wr dir m))
      with (TuringMachine.in_reject_states m).
    rewrite (in_accept_states_false m q Hq Hacc).
    rewrite (in_reject_states_false m q Hq Hrej).
    cbn [TuringMachine.add_transition TuringMachine.set_transition_function
         TuringMachine.tape TuringMachine.current_state
         TuringMachine.transition_function].
    rewrite Ht, Hq.
    unfold TransitionFunction.get, TransitionFunction.add.
    cbn [TransitionFunction.transitions].
    by rewrite lookup_insert_eq.
Qed.

Lemma add_transition_step_witness :
  TuringMachine.step (TuringMachine.add_transition "q0" "1" "q0" "0" "R" no_rule_machine) =
    (Return Continue,
     TuringMachine.set_current_state (Some "q0"%string)
       (TuringMachine.set_tape
          (Some (Tape.move "R" (Tape.write "0" (Tape.init "1" "_"))))
          (TuringMachine.add_transition "q0" "1" "q0" "0" "R" no_rule_machine))) /\
  TuringMachine.step (TuringMachine.add_transition "q0" "0" "q0" "0" "R" no_rule_machine) =
    (fst (TuringMachine.step no_rule_machine),
     TuringMachine.add_transition "q0" "0" "q0" "0" "R"
       (snd (TuringMachine.step no_rule_machine))).
Proof.
  split.
  - destruct (add_transition_step no_rule_machine (Tape.init "1" "_")
                "q0" "q0" "1" "q0" "0" "R") as [_ H].
    + vm_compute. reflexivity.
    + vm_compute. reflexivity.
    + apply H.
      * vm_compute. reflexivity.
      * apply (bool_decide_unpack _). vm_compute. exact I.
      * apply (bool_decide_unpack _). vm_compute. exact I.
  - destruct (add_transition_step no_rule_machine (Tape.init "1" "_")
                "q0" "q0" "0" "q0" "0" "R") as [H _].
    + vm_compute. reflexivity.
    + vm_compute. reflexivity.
    + apply H. vm_compute. discriminate.
Defined.
